(** * brian2tools.baseexport.collector

    A shallow embedding of the collector functions of
    [brian2tools/baseexport/collector.py], which copy the description of
    Brian objects (groups, monitors, synapses) into plain dictionaries,
    and the properties of these functions.

    Dictionaries built by the collectors are finite maps from strings to
    Python values; Python exceptions are the [Raise] case of [result]. *)

From stdpp Require Import gmap strings list fin_maps.

Set Warnings "-register-all".

(** ** Python values *)

(** A Brian quantity: the collectors copy quantities and test them for
    truth, they never compute with them.  The magnitude is kept as an
    integer number of the display unit. *)
Record Quantity := mkQuantity { magnitude : Z; unit_name : string }.

Inductive value : Type :=
| VNone
| VBool (b : bool)
| VInt (n : Z)
| VStr (s : string)
| VQuantity (q : Quantity)
| VUnit (u : string)
| VList (l : list value)
| VDict (d : gmap string value).

(** [bool(v)] *)
Definition truthy (v : value) : bool :=
  match v with
  | VNone => false
  | VBool b => b
  | VInt n => negb (n =? 0)%Z
  | VStr s => negb (String.eqb s "")
  | VQuantity q => negb (magnitude q =? 0)%Z
  | VUnit _ => true
  | VList l => match l with [] => false | _ => true end
  | VDict d => negb (bool_decide (d = ∅))
  end.

Definition strs (l : list string) : value := VList (VStr <$> l).

(** ** Exceptions *)

Inductive exn : Type :=
| KeyError (key : string)
| UnboundLocalError (var : string)
| AttributeError (attr : string)
| TypeError (what : string).

Inductive result (A : Type) : Type :=
| Ok (a : A)
| Raise (e : exn).
Arguments Ok {A} a.
Arguments Raise {A} e.

#[global] Instance result_ret : MRet result := λ A a, Ok a.
#[global] Instance result_bind : MBind result := λ A B f m,
  match m with Ok a => f a | Raise e => Raise e end.

Definition is_Ok {A} (r : result A) : Prop := ∃ a, r = Ok a.

(** [for x in l: a = f(a, x)], stopping at the first exception *)
Fixpoint foldM {A B} (f : A → B → result A) (a : A) (l : list B) : result A :=
  match l with
  | [] => Ok a
  | x :: l' => a' ← f a x; foldM f a' l'
  end.

(** [m[key]] on a dictionary *)
Definition getitem {A} (m : gmap string A) (key : string) : result A :=
  match m !! key with Some a => Ok a | None => Raise (KeyError key) end.

(** [d[k1][k2] = v] *)
Definition setitem_in (d : gmap string value) (k1 k2 : string) (v : value)
  : result (gmap string value) :=
  sub ← getitem d k1;
  match sub with
  | VDict s => Ok (<[k1 := VDict (<[k2 := v]> s)]> d)
  | _ => Raise (TypeError "item assignment")
  end.

(** [d[k].append(v)] *)
Definition append_in (d : gmap string value) (k : string) (v : value)
  : result (gmap string value) :=
  l ← getitem d k;
  match l with
  | VList l => Ok (<[k := VList (l ++ [v])]> d)
  | _ => Raise (AttributeError "append")
  end.

(** Iteration order of a Python set: some enumeration of its elements,
    about which nothing else is known. *)
Record SetOrder := mkSetOrder {
  set_iter :> gset string → list string;
  set_iter_perm : ∀ X, set_iter X ≡ₚ elements X
}.

Definition elements_order : SetOrder :=
  {| set_iter := elements; set_iter_perm := λ X, reflexivity (elements X) |}.

Definition reverse_order : SetOrder :=
  {| set_iter := λ X, reverse (elements X);
     set_iter_perm := λ X, reverse_Permutation (elements X) |}.

(** An insertion-ordered dictionary whose iteration order matters: the list
    of its items, keys pairwise distinct. *)
Definition keys {A} (d : list (string * A)) : list string := d.*1.

Fixpoint assoc {A} (d : list (string * A)) (key : string) : result A :=
  match d with
  | [] => Raise (KeyError key)
  | (k, a) :: d' => if bool_decide (k = key) then Ok a else assoc d' key
  end.

(** ** Brian objects, as the collectors read them *)

(** The classes the collectors tell apart, and user subclasses of them. *)
Inductive class : Type :=
| BrianObject
| CodeRunner
| StateUpdater
| Thresholder
| Resetter
| SummedVariableUpdater
| Subclass (name : string) (base : class).

#[global] Instance class_eq_dec : EqDecision class.
Proof. solve_decision. Defined.

(** Method resolution order: the class, then its bases. [StateUpdater],
    [Thresholder], [Resetter] and [SummedVariableUpdater] all derive from
    [CodeRunner]. *)
Fixpoint mro (c : class) : list class :=
  c :: match c with
       | BrianObject => []
       | CodeRunner => [BrianObject]
       | StateUpdater | Thresholder | Resetter | SummedVariableUpdater =>
           [CodeRunner; BrianObject]
       | Subclass _ base => mro base
       end.

Record Clock := mkClock { dt : Quantity }.

Module Obj.
(** A contained object (a [CodeRunner] or one of its kin); [target] is the
    name of the target group of a [SummedVariableUpdater]. *)
Record t := mk {
  type : class;
  name : string;
  abstract_code : string;
  clock : Clock;
  when : string;
  order : Z;
  target : string
}.
End Obj.

(** [type(obj) == cls] *)
Definition type_is (obj : Obj.t) (cls : class) : bool :=
  bool_decide (Obj.type obj = cls).

(** [isinstance(obj, cls)] *)
Definition isinstance (obj : Obj.t) (cls : class) : bool :=
  bool_decide (cls ∈ mro (Obj.type obj)).

Definition DIFFERENTIAL_EQUATION : string := "differential equation".
Definition SUBEXPRESSION : string := "subexpression".
Definition PARAMETER : string := "parameter".

Record Expression := mkExpression { code : string }.

Module SingleEquation.
Record t := mk {
  unit : string;
  type : string;
  var_type : string;
  expr : option Expression;
  flags : list string
}.
End SingleEquation.

Module Equations.
(** [_equations] backs [equations[name]]; the three name sets and
    [identifiers] are the properties of the same names. *)
Record t := mk {
  _equations : gmap string SingleEquation.t;
  diff_eq_names : gset string;
  subexpr_names : gset string;
  parameter_names : gset string;
  identifiers : gset string
}.
End Equations.

(** Outcome of [group.resolve_all(identifiers, run_namespace)]: the resolved
    identifiers, or the identifier no namespace defines (a [KeyError]). *)
Inductive resolution : Type :=
| Resolved (variables : gmap string value)
| Unresolved (identifier : string).

Definition resolved (r : resolution) : result (gmap string value) :=
  match r with
  | Resolved variables => Ok variables
  | Unresolved identifier => Raise (KeyError identifier)
  end.

Module NeuronGroup.
Record t := mk {
  name : string;
  _N : Z;
  method_choice : value;
  user_equations : Equations.t;
  events : gmap string string;
  thresholder : list (string * Obj.t);
  event_codes : gmap string string;
  resetter : gmap string Obj.t;
  _refractory : value;
  contained_objects : list Obj.t;
  resolve_all : gset string → gmap string value → resolution
}.
End NeuronGroup.

Module PoissonGroup.
Record t := mk {
  _name : string;
  _N : Z;
  _rates : value;
  contained_objects : list Obj.t;
  resolve_all : gset string → gmap string value → resolution
}.
End PoissonGroup.

Module EventMonitor.
(** Also the attributes of a [SpikeMonitor], its subclass; [source] is the
    name of the monitored group. *)
Record t := mk {
  name : string;
  event : string;
  source : string;
  record_variables : list string;
  record : value;
  clock : Clock;
  when : string;
  order : Z
}.
End EventMonitor.

Module Synapses.
Record t := mk {
  name : string;
  source : string;
  target : string;
  equations : Equations.t;
  event_driven : option Equations.t;
  contained_objects : list Obj.t
}.
End Synapses.

(** [bool(equations)]: an [Equations] object is a mapping, true when it
    holds an equation. *)
Definition Equations_bool (equations : Equations.t) : bool :=
  negb (bool_decide (Equations._equations equations = ∅)).

(** ** The collectors *)

Section collector.

(** [brian2.utils.stringtools.get_identifiers] and
    [.helper._prune_identifiers], and the order in which a set of names is
    iterated. *)
Variable get_identifiers : string → gset string.
Variable _prune_identifiers : gmap string value → gmap string value.
Variable order_of : SetOrder.

(** Body of the loop of [collect_Equations]. *)
Definition collect_Equations_body (equations : Equations.t)
    (eqn_dict : gmap string value) (name : string)
  : result (gmap string value) :=
  eqs ← getitem (Equations._equations equations) name;
  let eqn_dict :=
    <[name := VDict {[ "unit" := VUnit (SingleEquation.unit eqs);
                       "type" := VStr (SingleEquation.type eqs);
                       "var_type" := VStr (SingleEquation.var_type eqs) ]}]>
      eqn_dict in
  eqn_dict ←
    (if bool_decide (SingleEquation.type eqs ≠ PARAMETER) then
       match SingleEquation.expr eqs with
       | Some expr => setitem_in eqn_dict name "expr" (VStr (code expr))
       | None => Raise (AttributeError "code")
       end
     else Ok eqn_dict);
  if truthy (strs (SingleEquation.flags eqs)) then
    setitem_in eqn_dict name "flags" (strs (SingleEquation.flags eqs))
  else Ok eqn_dict.

Definition collect_Equations (equations : Equations.t)
  : result (gmap string value) :=
  foldM (collect_Equations_body equations) ∅
    (order_of (Equations.diff_eq_names equations
               ∪ Equations.subexpr_names equations
               ∪ Equations.parameter_names equations)).

(** [{'code': code, 'when': obj.when, 'order': obj.order,
      'dt': obj.clock.dt}] *)
Definition event_code_record (code : string) (obj : Obj.t) : value :=
  VDict {[ "code" := VStr code;
           "when" := VStr (Obj.when obj);
           "order" := VInt (Obj.order obj);
           "dt" := VQuantity (dt (Obj.clock obj)) ]}.

(** State of the loop of [collect_Events]: the two accumulators and the
    loop variable [event], [None] while it is unbound.  [event_subdict] is
    an alias of [event_dict[event]] from the first statement of the body
    on, so a store through it is a store into [event_dict[event]]. *)
Definition Events_state : Type :=
  gmap string value * gset string * option string.

(** Body of the loop of [collect_Events]. *)
Definition collect_Events_body (group : NeuronGroup.t)
    (st : Events_state) (event : string) : result Events_state :=
  let '(event_dict, event_identifiers, _) := st in
  let event_dict := <[event := VDict ∅]> event_dict in
  threshold ← getitem (NeuronGroup.events group) event;
  thresholder ← assoc (NeuronGroup.thresholder group) event;
  event_dict ←
    setitem_in event_dict event "threshold"
      (event_code_record threshold thresholder);
  let event_identifiers := event_identifiers ∪ get_identifiers threshold in
  match NeuronGroup.event_codes group !! event with
  | Some reset =>
      resetter ← getitem (NeuronGroup.resetter group) event;
      event_dict ←
        setitem_in event_dict event "reset" (event_code_record reset resetter);
      Ok (event_dict, event_identifiers ∪ get_identifiers reset, Some event)
  | None => Ok (event_dict, event_identifiers, Some event)
  end.

Definition collect_Events (group : NeuronGroup.t)
  : result (gmap string value * gset string) :=
  '(event_dict, event_identifiers, event) ←
    foldM (collect_Events_body group) (∅, ∅, None)
      (keys (NeuronGroup.thresholder group));
  match event with
  | None => Raise (UnboundLocalError "event")
  | Some event =>
      if bool_decide (event = "spike")
         && truthy (NeuronGroup._refractory group) then
        event_dict ←
          setitem_in event_dict event "refractory"
            (NeuronGroup._refractory group);
        Ok (event_dict, event_identifiers)
      else Ok (event_dict, event_identifiers)
  end.

(** The [run_regularly] entry of a [CodeRunner]. *)
Definition run_regularly_entry (obj : Obj.t) : value :=
  VDict {[ "name" := VStr (Obj.name obj);
           "code" := VStr (Obj.abstract_code obj);
           "dt" := VQuantity (dt (Obj.clock obj));
           "when" := VStr (Obj.when obj);
           "order" := VInt (Obj.order obj) ]}.

(** The statement [if type(obj) == CodeRunner: ...] that the loops over
    [contained_objects] of the three group collectors share. *)
Definition collect_run_regularly (group_dict : gmap string value)
    (obj : Obj.t) : result (gmap string value) :=
  if type_is obj CodeRunner then
    let group_dict :=
      match group_dict !! "run_regularly" with
      | None => <["run_regularly" := VList []]> group_dict
      | Some _ => group_dict
      end in
    append_in group_dict "run_regularly" (run_regularly_entry obj)
  else Ok group_dict.

(** Body of the loop over [group.contained_objects] of
    [collect_NeuronGroup]. *)
Definition collect_NeuronGroup_body (neuron_dict : gmap string value)
    (obj : Obj.t) : result (gmap string value) :=
  neuron_dict ← collect_run_regularly neuron_dict obj;
  if isinstance obj StateUpdater then
    Ok (<["order" := VInt (Obj.order obj)]>
          (<["when" := VStr (Obj.when obj)]> neuron_dict))
  else Ok neuron_dict.

Definition collect_NeuronGroup (group : NeuronGroup.t)
    (run_namespace : gmap string value) : result (gmap string value) :=
  let neuron_dict : gmap string value := ∅ in
  let identifiers : gset string := ∅ in
  let neuron_dict := <["name" := VStr (NeuronGroup.name group)]> neuron_dict in
  let neuron_dict := <["N" := VInt (NeuronGroup._N group)]> neuron_dict in
  let neuron_dict :=
    match NeuronGroup.method_choice group with
    | VStr method => <["user_method" := VStr method]> neuron_dict
    | _ => <["user_method" := VNone]> neuron_dict
    end in
  equations ← collect_Equations (NeuronGroup.user_equations group);
  let neuron_dict := <["equations" := VDict equations]> neuron_dict in
  let identifiers :=
    identifiers ∪ Equations.identifiers (NeuronGroup.user_equations group) in
  '(neuron_dict, identifiers) ←
    (if negb (bool_decide (NeuronGroup.events group = ∅)) then
       '(events, event_identifiers) ← collect_Events group;
       Ok (<["events" := VDict events]> neuron_dict,
           identifiers ∪ event_identifiers)
     else Ok (neuron_dict, identifiers));
  identifiers ← resolved (NeuronGroup.resolve_all group identifiers run_namespace);
  let identifiers := _prune_identifiers identifiers in
  let neuron_dict :=
    if truthy (VDict identifiers) then
      <["identifiers" := VDict identifiers]> neuron_dict
    else neuron_dict in
  foldM collect_NeuronGroup_body neuron_dict
    (NeuronGroup.contained_objects group).

Definition collect_PoissonGroup (poisson_grp : PoissonGroup.t)
    (run_namespace : gmap string value) : result (gmap string value) :=
  let poisson_grp_dict : gmap string value := ∅ in
  let poisson_identifiers : gset string := ∅ in
  let poisson_grp_dict :=
    <["name" := VStr (PoissonGroup._name poisson_grp)]> poisson_grp_dict in
  let poisson_grp_dict :=
    <["N" := VInt (PoissonGroup._N poisson_grp)]> poisson_grp_dict in
  let poisson_grp_dict :=
    <["rates" := PoissonGroup._rates poisson_grp]> poisson_grp_dict in
  let poisson_identifiers :=
    match PoissonGroup._rates poisson_grp with
    | VStr rates => poisson_identifiers ∪ get_identifiers rates
    | _ => poisson_identifiers
    end in
  poisson_identifiers ←
    resolved (PoissonGroup.resolve_all poisson_grp poisson_identifiers
                run_namespace);
  let poisson_identifiers := _prune_identifiers poisson_identifiers in
  let poisson_grp_dict :=
    if truthy (VDict poisson_identifiers) then
      <["identifiers" := VDict poisson_identifiers]> poisson_grp_dict
    else poisson_grp_dict in
  foldM collect_run_regularly poisson_grp_dict
    (PoissonGroup.contained_objects poisson_grp).

Definition collect_EventMonitor (event_mon : EventMonitor.t)
  : gmap string value :=
  let event_mon_dict : gmap string value := ∅ in
  let event_mon_dict :=
    <["name" := VStr (EventMonitor.name event_mon)]> event_mon_dict in
  let event_mon_dict :=
    <["event" := VStr (EventMonitor.event event_mon)]> event_mon_dict in
  let event_mon_dict :=
    <["source" := VStr (EventMonitor.source event_mon)]> event_mon_dict in
  let event_mon_dict :=
    <["variables" := strs (EventMonitor.record_variables event_mon)]>
      event_mon_dict in
  let event_mon_dict :=
    <["record" := EventMonitor.record event_mon]> event_mon_dict in
  let event_mon_dict :=
    <["dt" := VQuantity (dt (EventMonitor.clock event_mon))]> event_mon_dict in
  let event_mon_dict :=
    <["when" := VStr (EventMonitor.when event_mon)]> event_mon_dict in
  let event_mon_dict :=
    <["order" := VInt (EventMonitor.order event_mon)]> event_mon_dict in
  event_mon_dict.

Definition collect_SpikeMonitor (spike_mon : EventMonitor.t)
  : gmap string value :=
  let spike_mon_dict := collect_EventMonitor spike_mon in
  spike_mon_dict.

(** The entry of a [SummedVariableUpdater]. *)
Definition summed_var (obj : Obj.t) : value :=
  VDict {[ "code" := VStr (Obj.abstract_code obj);
           "target" := VStr (Obj.target obj);
           "name" := VStr (Obj.name obj);
           "dt" := VQuantity (dt (Obj.clock obj));
           "when" := VStr (Obj.when obj);
           "order" := VInt (Obj.order obj) ]}.

(** [d.update(other)]: the items of [other] replace those of [d]. *)
Definition update (d other : gmap string value) : gmap string value :=
  other ∪ d.

(** [d[k].update(other)] *)
Definition update_in (d : gmap string value) (k : string)
    (other : gmap string value) : result (gmap string value) :=
  sub ← getitem d k;
  match sub with
  | VDict s => Ok (<[k := VDict (update s other)]> d)
  | _ => Raise (AttributeError "update")
  end.

Definition collect_Synapses (synapses : Synapses.t)
  : result (gmap string value) :=
  let synapse_dict : gmap string value := ∅ in
  let synapse_dict :=
    <["name" := VStr (Synapses.name synapses)]> synapse_dict in
  let synapse_dict :=
    <["source" := VStr (Synapses.source synapses)]> synapse_dict in
  let synapse_dict :=
    <["target" := VStr (Synapses.target synapses)]> synapse_dict in
  equations ← collect_Equations (Synapses.equations synapses);
  let synapse_dict := <["equations" := VDict equations]> synapse_dict in
  synapse_dict ←
    match Synapses.event_driven synapses with
    | Some event_driven =>
        if Equations_bool event_driven then
          event_driven_dict ← collect_Equations event_driven;
          update_in synapse_dict "equations" event_driven_dict
        else Ok synapse_dict
    | None => Ok synapse_dict
    end;
  let summed_variables :=
    foldl (λ summed_variables obj,
             if isinstance obj SummedVariableUpdater
             then summed_variables ++ [summed_var obj]
             else summed_variables)
          [] (Synapses.contained_objects synapses) in
  let synapse_dict :=
    if truthy (VList summed_variables) then
      <["summed_variables" := VList summed_variables]> synapse_dict
    else synapse_dict in
  Ok synapse_dict.

End collector.

(** ** The collectors of the other objects *)

Module SpikeGeneratorGroup.
(** [_neuron_index], [spike_time] and [period] are arrays, of which the
    collector takes the full slice [[:]]. *)
Record t := mk {
  name : string;
  N : Z;
  _neuron_index : list Z;
  spike_time : list Quantity;
  period : Quantity;
  contained_objects : list Obj.t
}.
End SpikeGeneratorGroup.

Module StateMonitor.
(** [source] is the name of the monitored group; [record] holds the
    recorded indices. *)
Record t := mk {
  name : string;
  source : string;
  record_variables : list string;
  record_all : bool;
  record : list Z;
  n_indices : Z;
  clock : Clock;
  when : string;
  order : Z
}.
End StateMonitor.

Module PopulationRateMonitor.
Record t := mk {
  name : string;
  source : string;
  clock : Clock;
  when : string;
  order : Z
}.
End PopulationRateMonitor.

(** An array of integers, and one of quantities. *)
Definition ints (l : list Z) : value := VList (VInt <$> l).
Definition quantities (l : list Quantity) : value := VList (VQuantity <$> l).

(** [run_namespace] is an argument that the function does not read. *)
Definition collect_SpikeGenerator (spike_gen : SpikeGeneratorGroup.t)
    (run_namespace : option (gmap string value))
  : result (gmap string value) :=
  let spikegen_dict : gmap string value := ∅ in
  let spikegen_dict :=
    <["name" := VStr (SpikeGeneratorGroup.name spike_gen)]> spikegen_dict in
  let spikegen_dict :=
    <["N" := VInt (SpikeGeneratorGroup.N spike_gen)]> spikegen_dict in
  let spikegen_dict :=
    <["indices" := ints (SpikeGeneratorGroup._neuron_index spike_gen)]>
      spikegen_dict in
  let spikegen_dict :=
    <["times" := quantities (SpikeGeneratorGroup.spike_time spike_gen)]>
      spikegen_dict in
  let spikegen_dict :=
    <["period" := VQuantity (SpikeGeneratorGroup.period spike_gen)]>
      spikegen_dict in
  foldM collect_run_regularly spikegen_dict
    (SpikeGeneratorGroup.contained_objects spike_gen).

Definition collect_StateMonitor (state_mon : StateMonitor.t)
  : gmap string value :=
  let state_mon_dict : gmap string value := ∅ in
  let state_mon_dict :=
    <["name" := VStr (StateMonitor.name state_mon)]> state_mon_dict in
  let state_mon_dict :=
    <["source" := VStr (StateMonitor.source state_mon)]> state_mon_dict in
  let state_mon_dict :=
    <["variables" := strs (StateMonitor.record_variables state_mon)]>
      state_mon_dict in
  let state_mon_dict :=
    if StateMonitor.record_all state_mon then
      <["record" := VBool (StateMonitor.record_all state_mon)]> state_mon_dict
    else
      <["record" := ints (StateMonitor.record state_mon)]> state_mon_dict in
  let state_mon_dict :=
    <["n_indices" := VInt (StateMonitor.n_indices state_mon)]> state_mon_dict in
  let state_mon_dict :=
    <["dt" := VQuantity (dt (StateMonitor.clock state_mon))]> state_mon_dict in
  let state_mon_dict :=
    <["when" := VStr (StateMonitor.when state_mon)]> state_mon_dict in
  let state_mon_dict :=
    <["order" := VInt (StateMonitor.order state_mon)]> state_mon_dict in
  state_mon_dict.

Definition collect_PopulationRateMonitor
    (poprate_mon : PopulationRateMonitor.t) : gmap string value :=
  let poprate_mon_dict : gmap string value := ∅ in
  let poprate_mon_dict :=
    <["name" := VStr (PopulationRateMonitor.name poprate_mon)]>
      poprate_mon_dict in
  let poprate_mon_dict :=
    <["source" := VStr (PopulationRateMonitor.source poprate_mon)]>
      poprate_mon_dict in
  let poprate_mon_dict :=
    <["dt" := VQuantity (dt (PopulationRateMonitor.clock poprate_mon))]>
      poprate_mon_dict in
  let poprate_mon_dict :=
    <["when" := VStr (PopulationRateMonitor.when poprate_mon)]>
      poprate_mon_dict in
  let poprate_mon_dict :=
    <["order" := VInt (PopulationRateMonitor.order poprate_mon)]>
      poprate_mon_dict in
  poprate_mon_dict.

(** ** Specification-side definitions *)

(** The names of an equation set: its differential-equation, subexpression
    and parameter names. *)
Definition Equations_names (equations : Equations.t) : gset string :=
  Equations.diff_eq_names equations
  ∪ Equations.subexpr_names equations
  ∪ Equations.parameter_names equations.

(** An equation can be collected: unless it is a parameter it has an
    expression. *)
Definition SingleEquation_ok (eqs : SingleEquation.t) : bool :=
  bool_decide (SingleEquation.type eqs = PARAMETER)
  || bool_decide (is_Some (SingleEquation.expr eqs)).

(** Every name of the set has an equation that can be collected, as in an
    [Equations] object that Brian built. *)
Definition Equations_wf (equations : Equations.t) : bool :=
  forallb (λ name,
             match Equations._equations equations !! name with
             | Some eqs => SingleEquation_ok eqs
             | None => false
             end)
          (elements (Equations_names equations)).

(** The dictionary [collect_Equations] stores for one equation. *)
Definition equation_entry (eqs : SingleEquation.t)
  : result (gmap string value) :=
  let entry : gmap string value :=
    {[ "unit" := VUnit (SingleEquation.unit eqs);
       "type" := VStr (SingleEquation.type eqs);
       "var_type" := VStr (SingleEquation.var_type eqs) ]} in
  entry ←
    (if bool_decide (SingleEquation.type eqs ≠ PARAMETER) then
       match SingleEquation.expr eqs with
       | Some expr => Ok (<["expr" := VStr (code expr)]> entry)
       | None => Raise (AttributeError "code")
       end
     else Ok entry);
  Ok (if truthy (strs (SingleEquation.flags eqs))
      then <["flags" := strs (SingleEquation.flags eqs)]> entry
      else entry).

(** The entry stored for [name], when there is one to store. *)
Definition entry_for (equations : Equations.t) (name : string)
  : result (gmap string value) :=
  getitem (Equations._equations equations) name ≫= equation_entry.

(** Two calls end alike: both return, and the same record, or both raise. *)
Definition same_outcome {A} (r1 r2 : result A) : Prop :=
  match r1, r2 with
  | Ok a1, Ok a2 => a1 = a2
  | Raise _, Raise _ => True
  | _, _ => False
  end.

(** A sub-record of an event dictionary carries a refractory field, at its
    top or in one of its own sub-records. *)
Definition has_refractory (sub : value) : Prop :=
  match sub with
  | VDict s =>
      is_Some (s !! "refractory")
      ∨ ∃ k inner, s !! k = Some (VDict inner) ∧ is_Some (inner !! "refractory")
  | _ => False
  end.

(** What holds of the state of the loop after any number of steps. *)
Definition Events_invariant (group : NeuronGroup.t) (st : Events_state) : Prop :=
  (∀ e sub, st.1.1 !! e = Some sub → ¬ has_refractory sub)
  ∧ (∀ event, st.2 = Some event →
       event ∈ keys (NeuronGroup.thresholder group)
       ∧ is_Some (NeuronGroup.events group !! event)
       ∧ ∃ s, st.1.1 !! event = Some (VDict s)).

(** The [run_regularly] list for the [CodeRunner] objects [objs]: no key
    when there is none. *)
Definition run_regularly_list (objs : list Obj.t) : option value :=
  match objs with
  | [] => None
  | _ => Some (VList (run_regularly_entry <$> objs))
  end.

(** The identifiers of a [NeuronGroup] that [collect_NeuronGroup] resolves:
    those of its equations and, when it has events, those of the threshold
    and reset code. *)
Definition NeuronGroup_identifiers (get_identifiers : string → gset string)
    (group : NeuronGroup.t) : gset string :=
  Equations.identifiers (NeuronGroup.user_equations group)
  ∪ (if bool_decide (NeuronGroup.events group = ∅) then ∅
     else match collect_Events get_identifiers group with
          | Ok (_, event_identifiers) => event_identifiers
          | Raise _ => ∅
          end).

(** The identifiers of a [PoissonGroup] that [collect_PoissonGroup]
    resolves: those of its rates, when they are code. *)
Definition PoissonGroup_identifiers (get_identifiers : string → gset string)
    (poisson_grp : PoissonGroup.t) : gset string :=
  match PoissonGroup._rates poisson_grp with
  | VStr rates => get_identifiers rates
  | _ => ∅
  end.

Definition is_UnboundLocalError (e : exn) : Prop :=
  match e with UnboundLocalError _ => True | _ => False end.

(** What a step of the loop of [collect_Events] makes of [event]: its
    sub-record and the identifiers of its code. *)
Definition event_step (get_identifiers : string → gset string)
    (group : NeuronGroup.t) (event : string)
  : result (gmap string value * gset string) :=
  threshold ← getitem (NeuronGroup.events group) event;
  thresholder ← assoc (NeuronGroup.thresholder group) event;
  match NeuronGroup.event_codes group !! event with
  | Some reset =>
      resetter ← getitem (NeuronGroup.resetter group) event;
      Ok (<["reset" := event_code_record reset resetter]>
            (<["threshold" := event_code_record threshold thresholder]> ∅),
          get_identifiers threshold ∪ get_identifiers reset)
  | None =>
      Ok (<["threshold" := event_code_record threshold thresholder]> ∅,
          get_identifiers threshold)
  end.


(** The value under ['user_method']. *)
Definition user_method (group : NeuronGroup.t) : value :=
  match NeuronGroup.method_choice group with
  | VStr method => VStr method
  | _ => VNone
  end.

(** The record of [collect_NeuronGroup] before the loop over the contained
    objects, from the collected equations, the collected events if the
    group has events, and the pruned identifiers. *)
Definition NeuronGroup_dict (group : NeuronGroup.t)
    (equations : gmap string value) (events : option (gmap string value))
    (identifiers : gmap string value) : gmap string value :=
  let neuron_dict : gmap string value :=
    <["equations" := VDict equations]>
      (<["user_method" := user_method group]>
         (<["N" := VInt (NeuronGroup._N group)]>
            (<["name" := VStr (NeuronGroup.name group)]> ∅))) in
  let neuron_dict :=
    match events with
    | Some events => <["events" := VDict events]> neuron_dict
    | None => neuron_dict
    end in
  if bool_decide (identifiers = ∅) then neuron_dict
  else <["identifiers" := VDict identifiers]> neuron_dict.

(** The entries of the [SummedVariableUpdater]s among [objs]. *)
Definition summed_variables_of (objs : list Obj.t) : list value :=
  summed_var <$> filter (λ obj, SummedVariableUpdater ∈ mro (Obj.type obj)) objs.

(** ** Example objects *)

Module Examples.

Definition is_word (c : Ascii.ascii) : bool :=
  let n := Ascii.nat_of_ascii c in
  ((65 <=? n) && (n <=? 90)) || ((97 <=? n) && (n <=? 122))
  || ((48 <=? n) && (n <=? 57)) || (n =? 95).

Definition is_digit (c : Ascii.ascii) : bool :=
  let n := Ascii.nat_of_ascii c in (48 <=? n) && (n <=? 57).

(** The maximal runs of word characters of [s], [cur] being the run that
    is being read. *)
Fixpoint words (s : string) (cur : string) : list string :=
  match s with
  | EmptyString => [cur]
  | String c s' =>
      if is_word c then words s' (cur +:+ String c EmptyString)
      else cur :: words s' ""
  end.

Definition KEYWORDS : list string := ["and"; "or"; "not"; "True"; "False"].

Definition is_identifier (w : string) : bool :=
  match w with
  | EmptyString => false
  | String c _ => negb (is_digit c) && bool_decide (w ∉ KEYWORDS)
  end.

(** An instance of [get_identifiers]: the words of the code that start
    with a letter or an underscore and are no keyword. *)
Definition get_identifiers (code : string) : gset string :=
  list_to_set (filter (λ w, is_identifier w = true) (words code "")).

(** Modelled from the spec: [_prune_identifiers] of [helper.py], which is
    not among the sources; it removes the names that are internal, here the
    timestep symbols [t] and [dt]. *)
Definition _prune_identifiers (identifiers : gmap string value)
  : gmap string value :=
  delete "dt" (delete "t" identifiers).

(** An instance of [resolve_all]: each identifier is looked up in the
    variables of the group, then in the run namespace. *)
Definition resolve_all (variables : gmap string value)
    (identifiers : gset string) (run_namespace : gmap string value)
  : resolution :=
  foldr (λ identifier r,
           match r with
           | Resolved m =>
               match (variables ∪ run_namespace) !! identifier with
               | Some v => Resolved (<[identifier := v]> m)
               | None => Unresolved identifier
               end
           | Unresolved _ => r
           end)
        (Resolved ∅) (elements identifiers).

Definition ms (n : Z) : Quantity := mkQuantity n "ms".

Definition defaultclock : Clock := mkClock (mkQuantity 100 "us").

Definition stateupdater : Obj.t :=
  Obj.mk StateUpdater "neurongroup_stateupdater" "" defaultclock "groups" 0 "".

Definition spike_thresholder : Obj.t :=
  Obj.mk Thresholder "neurongroup_spike_thresholder" "" defaultclock
    "thresholds" 0 "".

Definition custom_thresholder : Obj.t :=
  Obj.mk Thresholder "neurongroup_custom_thresholder" "" defaultclock
    "after_thresholds" 0 "".

Definition spike_resetter : Obj.t :=
  Obj.mk Resetter "neurongroup_spike_resetter" "" defaultclock "resets" 0 "".

Definition run_regularly : Obj.t :=
  Obj.mk CodeRunner "neurongroup_run_regularly" "v = v + 1" (mkClock (ms 5))
    "start" 0 "".

(** [dv/dt = -v/tau : volt] and the parameter [tau : second (constant)] *)
Definition eqs_v : Equations.t :=
  Equations.mk
    {[ "v" := SingleEquation.mk "V" DIFFERENTIAL_EQUATION "float"
                (Some (mkExpression "-v/tau")) [];
       "tau" := SingleEquation.mk "s" PARAMETER "float" None ["constant"] ]}
    {[ "v" ]} ∅ {[ "tau" ]} {[ "v"; "tau" ]}.

Definition variables : gmap string value :=
  {[ "v" := VQuantity (mkQuantity 0 "V");
     "tau" := VQuantity (ms 10);
     "t" := VQuantity (ms 0);
     "dt" := VQuantity (mkQuantity 100 "us") ]}.

(** Scenario A: [NeuronGroup(10, 'dv/dt = -v/tau : volt', method='euler')] *)
Definition group_A : NeuronGroup.t :=
  NeuronGroup.mk "neurongroup" 10 (VStr "euler") eqs_v
    ∅ [] ∅ ∅ (VBool false) [stateupdater] (resolve_all variables).

(** Scenario B: threshold ['v > 1'], no reset, [refractory=2*ms], and a
    [run_regularly] operation. *)
Definition group_B : NeuronGroup.t :=
  NeuronGroup.mk "neurongroup" 10 (VStr "euler") eqs_v
    {[ "spike" := "v > 1" ]} [("spike", spike_thresholder)] ∅ ∅
    (VQuantity (ms 2))
    [stateupdater; spike_thresholder; run_regularly]
    (resolve_all variables).

(** [events={'spike': 'v > 1', 'custom': 'v > 2'}] with
    [refractory=2*ms]: the spike event comes first. *)
Definition group_spike_first : NeuronGroup.t :=
  NeuronGroup.mk "neurongroup" 10 (VStr "euler") eqs_v
    {[ "spike" := "v > 1"; "custom" := "v > 2" ]}
    [("spike", spike_thresholder); ("custom", custom_thresholder)] ∅ ∅
    (VQuantity (ms 2))
    [stateupdater; spike_thresholder; custom_thresholder]
    (resolve_all variables).

(** [threshold='v > 1', reset='v = 0', events={'custom': 'v > 2'}] with
    [refractory=2*ms]: the spike event comes last. *)
Definition group_spike_last : NeuronGroup.t :=
  NeuronGroup.mk "neurongroup" 10 (VStr "euler") eqs_v
    {[ "spike" := "v > 1"; "custom" := "v > 2" ]}
    [("custom", custom_thresholder); ("spike", spike_thresholder)]
    {[ "spike" := "v = 0" ]} {[ "spike" := spike_resetter ]}
    (VQuantity (ms 2))
    [stateupdater; custom_thresholder; spike_thresholder; spike_resetter]
    (resolve_all variables).

(** [PoissonGroup(5, rates='rate_0 + t/second*Hz')] *)
Definition poisson_grp : PoissonGroup.t :=
  PoissonGroup.mk "poissongroup" 5 (VStr "rate_0") [run_regularly]
    (resolve_all variables).

Definition run_namespace : gmap string value :=
  {[ "rate_0" := VQuantity (mkQuantity 10 "Hz") ]}.

Definition spike_mon : EventMonitor.t :=
  EventMonitor.mk "spikemonitor" "spike" "neurongroup" ["v"] (VBool true)
    defaultclock "end" 1.

(** [w : 1] and the event-driven [dApre/dt = -Apre/taupre : 1]; the second
    set also defines [w], as a subexpression. *)
Definition eqs_static : Equations.t :=
  Equations.mk
    {[ "w" := SingleEquation.mk "1" PARAMETER "float" None [] ]}
    ∅ ∅ {[ "w" ]} ∅.

Definition eqs_event_driven : Equations.t :=
  Equations.mk
    {[ "Apre" := SingleEquation.mk "1" DIFFERENTIAL_EQUATION "float"
                   (Some (mkExpression "-Apre/taupre")) ["event-driven"];
       "w" := SingleEquation.mk "1" SUBEXPRESSION "float"
                (Some (mkExpression "Apre")) [] ]}
    {[ "Apre" ]} {[ "w" ]} ∅ {[ "Apre"; "taupre" ]}.

Definition synapses : Synapses.t :=
  Synapses.mk "synapses" "neurongroup" "neurongroup_1" eqs_static
    (Some eqs_event_driven) [].

(** The records expected for the objects above. *)

Definition eqn_dict_v : gmap string value :=
  {[ "v" := VDict {[ "unit" := VUnit "V";
                     "type" := VStr "differential equation";
                     "var_type" := VStr "float";
                     "expr" := VStr "-v/tau" ]};
     "tau" := VDict {[ "unit" := VUnit "s";
                       "type" := VStr "parameter";
                       "var_type" := VStr "float";
                       "flags" := strs ["constant"] ]} ]}.

Definition events_B : gmap string value :=
  {[ "spike" :=
       VDict {[ "threshold" := event_code_record "v > 1" spike_thresholder;
                "refractory" := VQuantity (ms 2) ]} ]}.

Definition neuron_dict_A : gmap string value :=
  {[ "name" := VStr "neurongroup";
     "N" := VInt 10;
     "user_method" := VStr "euler";
     "equations" := VDict eqn_dict_v;
     "identifiers" := VDict {[ "v" := VQuantity (mkQuantity 0 "V");
                               "tau" := VQuantity (ms 10) ]};
     "when" := VStr "groups";
     "order" := VInt 0 ]}.

Definition neuron_dict_B : gmap string value :=
  {[ "name" := VStr "neurongroup";
     "N" := VInt 10;
     "user_method" := VStr "euler";
     "equations" := VDict eqn_dict_v;
     "events" := VDict events_B;
     "identifiers" := VDict {[ "v" := VQuantity (mkQuantity 0 "V");
                               "tau" := VQuantity (ms 10) ]};
     "run_regularly" := VList [run_regularly_entry run_regularly];
     "when" := VStr "groups";
     "order" := VInt 0 ]}.

Definition poisson_grp_dict : gmap string value :=
  {[ "name" := VStr "poissongroup";
     "N" := VInt 5;
     "rates" := VStr "rate_0";
     "identifiers" := VDict {[ "rate_0" := VQuantity (mkQuantity 10 "Hz") ]};
     "run_regularly" := VList [run_regularly_entry run_regularly] ]}.

(** A connection with a summed variable, whose updater is a contained
    object beside the updater of its pathway. *)
Definition summed_updater : Obj.t :=
  Obj.mk SummedVariableUpdater "synapses_summed_variable_I" "I = w"
    defaultclock "groups" (-1) "neurongroup_1".

Definition pathway_updater : Obj.t :=
  Obj.mk (Subclass "SynapticPathway" CodeRunner) "synapses_pre" "v += w"
    defaultclock "synapses" (-1) "neurongroup_1".

Definition synapses_summed : Synapses.t :=
  Synapses.mk "synapses" "neurongroup" "neurongroup_1" eqs_static None
    [pathway_updater; summed_updater].

Definition synapse_dict_summed : gmap string value :=
  {[ "name" := VStr "synapses";
     "source" := VStr "neurongroup";
     "target" := VStr "neurongroup_1";
     "equations" :=
       VDict {[ "w" := VDict {[ "unit" := VUnit "1";
                                "type" := VStr "parameter";
                                "var_type" := VStr "float" ]} ]};
     "summed_variables" := VList [summed_var summed_updater] ]}.

(** Scenario C: [SpikeGeneratorGroup(2, [0, 1], [1, 2]*ms)] *)
Definition spike_gen : SpikeGeneratorGroup.t :=
  SpikeGeneratorGroup.mk "spikegeneratorgroup" 2 [0; 1]%Z [ms 1; ms 2] (ms 0)
    [spike_thresholder].

Definition spikegen_dict : gmap string value :=
  {[ "name" := VStr "spikegeneratorgroup";
     "N" := VInt 2;
     "indices" := ints [0; 1]%Z;
     "times" := quantities [ms 1; ms 2];
     "period" := VQuantity (ms 0) ]}.

(** Scenario D: [StateMonitor(group, 'v', record=True)] on a group of ten
    neurons, and [StateMonitor(group, 'v', record=[3, 5])]. *)
Definition state_mon_all : StateMonitor.t :=
  StateMonitor.mk "statemonitor" "neurongroup" ["v"] true
    [0; 1; 2; 3; 4; 5; 6; 7; 8; 9]%Z 10 defaultclock "start" 0.

Definition state_mon_some : StateMonitor.t :=
  StateMonitor.mk "statemonitor_1" "neurongroup" ["v"] false [3; 5]%Z 2
    defaultclock "start" 0.

(** A group whose equations name [w] without an equation for it. *)
Definition group_missing_equation : NeuronGroup.t :=
  NeuronGroup.mk "neurongroup" 10 (VStr "euler")
    (Equations.mk (Equations._equations eqs_v) {[ "v" ]} ∅ {[ "tau"; "w" ]}
       {[ "v"; "tau" ]})
    ∅ [] ∅ ∅ (VBool false) [stateupdater] (resolve_all variables).

End Examples.

(** ** The error monad and its loops *)

Lemma bind_Ok {A B} (m : result A) (f : A → result B) (b : B) :
  m ≫= f = Ok b ↔ ∃ a, m = Ok a ∧ f a = Ok b.
Proof.
  destruct m as [a|e]; simpl; split.
  - intros H. by exists a.
  - by intros (a' & [= <-] & H).
  - intros [=].
  - by intros (a' & [=] & _).
Qed.

Lemma bind_Raise {A B} (m : result A) (f : A → result B) (e : exn) :
  m ≫= f = Raise e ↔ m = Raise e ∨ ∃ a, m = Ok a ∧ f a = Raise e.
Proof.
  destruct m as [a|e']; simpl; split.
  - intros H. right. by exists a.
  - intros [[=]|(a' & [= <-] & H)]. done.
  - intros [= ->]. by left.
  - intros [[= ->]|(a' & [=] & _)]. done.
Qed.

Lemma foldM_app {A B} (f : A → B → result A) (a : A) (l1 l2 : list B) :
  foldM f a (l1 ++ l2) = foldM f a l1 ≫= λ a', foldM f a' l2.
Proof.
  revert a. induction l1 as [|x l1 IH]; intros a; simpl; [done|].
  destruct (f a x) as [a'|e]; simpl; [apply IH | done].
Qed.

(** A property that every step of a loop keeps holds when the loop ends. *)
Lemma foldM_invariant {A B} (P : A → Prop) (f : A → B → result A)
    (l : list B) (a a' : A) :
  (∀ s x s', x ∈ l → P s → f s x = Ok s' → P s') →
  P a → foldM f a l = Ok a' → P a'.
Proof.
  revert a. induction l as [|x l IH]; intros a Hstep Ha; simpl.
  - by intros [= <-].
  - intros (s & Hs & Hrest)%bind_Ok.
    eapply IH; [|by eapply Hstep; [left|..]|done].
    intros s1 y s2 Hy. apply Hstep. by right.
Qed.

(** A loop raises what one of its steps raises. *)
Lemma foldM_Raise {A B} (f : A → B → result A) (l : list B) (a : A) (e : exn) :
  foldM f a l = Raise e → ∃ s x, x ∈ l ∧ f s x = Raise e.
Proof.
  revert a. induction l as [|x l IH]; intros a; simpl; [done|].
  intros [Hx|(s & Hs & Hrest)]%bind_Raise.
  - exists a, x. split; [left|done].
  - destruct (IH _ Hrest) as (s' & y & Hy & Hraise).
    exists s', y. split; [by right|done].
Qed.

Lemma getitem_Ok {A} (m : gmap string A) (key : string) (a : A) :
  getitem m key = Ok a ↔ m !! key = Some a.
Proof. unfold getitem. destruct (m !! key); naive_solver. Qed.

Lemma setitem_in_insert (d s : gmap string value) (k1 k2 : string) (v : value) :
  setitem_in (<[k1 := VDict s]> d) k1 k2 v = Ok (<[k1 := VDict (<[k2 := v]> s)]> d).
Proof.
  unfold setitem_in, getitem. rewrite lookup_insert_eq. simpl.
  by rewrite insert_insert_eq.
Qed.

(** ** [collect_Equations] *)

Section equations.
Variable order_of : SetOrder.

Lemma collect_Equations_body_entry (equations : Equations.t)
    (eqn_dict : gmap string value) (name : string) :
  collect_Equations_body equations eqn_dict name =
  eqs ← getitem (Equations._equations equations) name;
  entry ← equation_entry eqs;
  Ok (<[name := VDict entry]> eqn_dict).
Proof.
  unfold collect_Equations_body, equation_entry.
  destruct (getitem _ name) as [eqs|e]; simpl; [|done].
  case_bool_decide; simpl.
  - destruct (SingleEquation.expr eqs) as [expr|]; simpl; [|done].
    rewrite setitem_in_insert. simpl.
    destruct (SingleEquation.flags eqs); simpl; [done|].
    by rewrite setitem_in_insert.
  - destruct (SingleEquation.flags eqs); simpl; [done|].
    by rewrite setitem_in_insert.
Qed.

Lemma collect_Equations_loop_Ok (equations : Equations.t) (names : list string)
    (d0 d : gmap string value) :
  foldM (collect_Equations_body equations) d0 names = Ok d →
  ∀ name,
    (name ∈ names → ∃ entry, entry_for equations name = Ok entry
                              ∧ d !! name = Some (VDict entry))
    ∧ (name ∉ names → d !! name = d0 !! name).
Proof.
  revert d0. induction names as [|n names IH]; intros d0; simpl.
  - intros [= <-] name. split; [by intros ?%elem_of_nil|done].
  - rewrite collect_Equations_body_entry.
    intros (d1 & Hd1 & Hrest)%bind_Ok.
    apply bind_Ok in Hd1 as (eqs & Heqs & Hd1).
    apply bind_Ok in Hd1 as (entry & Hentry & [= <-]).
    intros name. destruct (IH _ Hrest name) as [Hin Hout]. split.
    + intros Hname. destruct (decide (name ∈ names)) as [?|Hnot]; [by apply Hin|].
      apply elem_of_cons in Hname as [->|?]; [|done].
      exists entry. split.
      * unfold entry_for. by rewrite Heqs.
      * by rewrite (Hout Hnot), lookup_insert_eq.
    + intros [Hne Hnot]%not_elem_of_cons.
      by rewrite (Hout Hnot), lookup_insert_ne.
Qed.

Lemma collect_Equations_loop_is_Ok (equations : Equations.t)
    (names : list string) (d0 : gmap string value) :
  (∀ name, name ∈ names → is_Ok (entry_for equations name)) →
  is_Ok (foldM (collect_Equations_body equations) d0 names).
Proof.
  revert d0. induction names as [|n names IH]; intros d0 Hall; simpl.
  - by eexists.
  - rewrite collect_Equations_body_entry.
    destruct (Hall n) as [entry Hentry]; [left|].
    unfold entry_for in Hentry. apply bind_Ok in Hentry as (eqs & Heqs & Hent).
    rewrite Heqs. simpl. rewrite Hent. simpl. apply IH. intros name Hname. apply Hall. by right.
Qed.

Lemma collect_Equations_lookup (equations : Equations.t)
    (d : gmap string value) (name : string) :
  collect_Equations order_of equations = Ok d →
  (name ∈ Equations_names equations →
     ∃ entry, entry_for equations name = Ok entry
              ∧ d !! name = Some (VDict entry))
  ∧ (name ∉ Equations_names equations → d !! name = None).
Proof.
  intros Hd. destruct (collect_Equations_loop_Ok _ _ _ _ Hd name) as [Hin Hout].
  assert (∀ X, name ∈ order_of X ↔ name ∈ X) as Hmem.
  { intros X. by rewrite (set_iter_perm order_of X), elem_of_elements. }
  split.
  - intros Hname. apply Hin. by apply Hmem.
  - intros Hname. rewrite Hout; [done|]. by rewrite Hmem.
Qed.

Lemma collect_Equations_dom (equations : Equations.t) (d : gmap string value) :
  collect_Equations order_of equations = Ok d →
  dom d = Equations_names equations.
Proof.
  intros Hd. apply set_eq. intros name. rewrite elem_of_dom.
  destruct (collect_Equations_lookup _ _ name Hd) as [Hin Hout].
  destruct (decide (name ∈ Equations_names equations)) as [Hname|Hname].
  - destruct (Hin Hname) as (entry & _ & ->). split; [done|by eexists].
  - rewrite (Hout Hname). split; [by intros [? [=]]|done].
Qed.

Lemma SingleEquation_ok_entry (eqs : SingleEquation.t) :
  SingleEquation_ok eqs = true → is_Ok (equation_entry eqs).
Proof.
  unfold SingleEquation_ok, equation_entry.
  intros [Hpar|Hexpr%bool_decide_eq_true]%orb_true_iff.
  - apply bool_decide_eq_true in Hpar.
    rewrite bool_decide_eq_false_2 by naive_solver. simpl. by eexists.
  - destruct Hexpr as [expr ->]. case_bool_decide; simpl; by eexists.
Qed.

Lemma Equations_wf_entry (equations : Equations.t) (name : string) :
  Equations_wf equations = true →
  name ∈ Equations_names equations → is_Ok (entry_for equations name).
Proof.
  unfold Equations_wf. rewrite forallb_forall. intros Hwf Hname.
  specialize (Hwf name). rewrite <- list_elem_of_In, elem_of_elements in Hwf.
  specialize (Hwf Hname). unfold entry_for, getitem.
  destruct (_ !! name) as [eqs|]; [|done]. simpl.
  by apply SingleEquation_ok_entry.
Qed.

Lemma collect_Equations_is_Ok (equations : Equations.t) :
  Equations_wf equations = true →
  is_Ok (collect_Equations order_of equations).
Proof.
  intros Hwf. apply collect_Equations_loop_is_Ok. intros name Hname.
  apply Equations_wf_entry; [done|].
  by rewrite (set_iter_perm order_of _), elem_of_elements in Hname.
Qed.

(** An equation set with a name to collect holds an equation. *)
Lemma collect_Equations_empty (equations : Equations.t) (d : gmap string value) :
  collect_Equations order_of equations = Ok d →
  Equations._equations equations = ∅ → d = ∅.
Proof.
  intros Hd Hempty. apply map_eq. intros name. rewrite lookup_empty.
  destruct (collect_Equations_lookup _ _ name Hd) as [Hin Hout].
  destruct (decide (name ∈ Equations_names equations)) as [Hname|Hname];
    [|by apply Hout].
  destruct (Hin Hname) as (entry & Hentry & _).
  unfold entry_for, getitem in Hentry. by rewrite Hempty, lookup_empty in Hentry.
Qed.

End equations.

(** C3. For an equation set whose names all have an equation, the
    dictionary that [collect_Equations] returns has as its keys exactly the
    differential-equation, subexpression and parameter names of the set,
    each of them once, whatever the order in which the names are visited. *)
Theorem collect_Equations_keys (order_of : SetOrder) (equations : Equations.t) :
  Equations_wf equations = true →
  ∃ eqn_dict,
    collect_Equations order_of equations = Ok eqn_dict
    ∧ dom eqn_dict = Equations.diff_eq_names equations
                     ∪ Equations.subexpr_names equations
                     ∪ Equations.parameter_names equations
    ∧ NoDup (map_to_list eqn_dict).*1
    ∧ length (map_to_list eqn_dict) = size (Equations_names equations).
Proof.
  intros Hwf.
  destruct (collect_Equations_is_Ok order_of _ Hwf) as [d Hd].
  exists d. pose proof (collect_Equations_dom _ _ _ Hd) as Hdom.
  split_and!; [done|done|apply NoDup_fst_map_to_list|].
  by rewrite <- Hdom, size_dom, length_map_to_list.
Qed.

(** C4. An entry of the dictionary that [collect_Equations] returns is a
    dictionary with a ['type'], and it has an ['expr'] exactly when that
    type is not ["parameter"]. *)
Theorem collect_Equations_expr (order_of : SetOrder) (equations : Equations.t)
    (eqn_dict : gmap string value) (name : string) (v : value) :
  collect_Equations order_of equations = Ok eqn_dict →
  eqn_dict !! name = Some v →
  ∃ entry kind,
    v = VDict entry
    ∧ entry !! "type" = Some (VStr kind)
    ∧ (is_Some (entry !! "expr") ↔ kind ≠ PARAMETER).
Proof.
  intros Hd Hv.
  destruct (collect_Equations_lookup order_of _ _ name Hd) as [Hin Hout].
  destruct (decide (name ∈ Equations_names equations)) as [Hname|Hname];
    [|by rewrite (Hout Hname) in Hv].
  destruct (Hin Hname) as (entry & Hentry & Hlook).
  rewrite Hlook in Hv. injection Hv as <-.
  unfold entry_for in Hentry. apply bind_Ok in Hentry as (eqs & _ & Hentry).
  exists entry, (SingleEquation.type eqs). split; [done|].
  unfold equation_entry in Hentry. simpl in Hentry.
  case_bool_decide as Hkind.
  - destruct (SingleEquation.expr eqs) as [expr|]; [|done].
    simpl in Hentry. injection Hentry as <-.
    split; [by case_match; simplify_map_eq|].
    split; [done|]. intros _. case_match; simplify_map_eq; by eexists.
  - simpl in Hentry. injection Hentry as <-.
    split; [by case_match; simplify_map_eq|].
    split; [|done]. case_match; simplify_map_eq; by intros [? [=]].
Qed.

(** ** [collect_Events] *)

Section events.
Variable get_identifiers : string → gset string.

Lemma event_code_record_no_refractory (code : string) (obj : Obj.t) (inner : gmap string value) :
  event_code_record code obj = VDict inner → inner !! "refractory" = None.
Proof. intros [= <-]. by simplify_map_eq. Qed.

Lemma assoc_Ok {A} (d : list (string * A)) (key : string) (a : A) :
  assoc d key = Ok a → key ∈ keys d.
Proof.
  induction d as [|[k a'] d IH]; simpl; [done|].
  case_bool_decide as Hk; [intros _; subst; left|intros ?; right; by apply IH].
Qed.

Lemma assoc_Raise {A} (d : list (string * A)) (key : string) (e : exn) :
  assoc d key = Raise e → e = KeyError key.
Proof.
  induction d as [|[k a'] d IH]; simpl; [by intros [= <-]|].
  by case_bool_decide.
Qed.


(** A step of the loop binds [event], stores a sub-record with a threshold
    and maybe a reset for it, and leaves the other sub-records alone. *)
Lemma collect_Events_body_Ok (group : NeuronGroup.t)
    (event_dict : gmap string value) (ids : gset string) (ev : option string)
    (event : string) (st : Events_state) :
  collect_Events_body get_identifiers group (event_dict, ids, ev) event = Ok st →
  ∃ sub ids',
    st = (<[event := VDict sub]> event_dict, ids', Some event)
    ∧ is_Some (NeuronGroup.events group !! event)
    ∧ event ∈ keys (NeuronGroup.thresholder group)
    ∧ ¬ has_refractory (VDict sub).
Proof.
  unfold collect_Events_body.
  intros (threshold & Hthr%getitem_Ok & H)%bind_Ok.
  apply bind_Ok in H as (thresholder & Hobj%assoc_Ok & H).
  rewrite setitem_in_insert in H. simpl in H.
  destruct (NeuronGroup.event_codes group !! event) as [reset|].
  - apply bind_Ok in H as (resetter & _ & H).
    rewrite setitem_in_insert in H. simpl in H. injection H as <-.
    eexists _, _. split_and!; [done|by eexists|done|].
    intros [[? Href]|(k & inner & Hk & [? Href])]; simplify_map_eq.
    apply lookup_insert_Some in Hk as [[<- Hk]|[_ Hk]].
    + apply event_code_record_no_refractory in Hk. congruence.
    + apply lookup_insert_Some in Hk as [[<- Hk]|[_ Hk]]; [|done].
      apply event_code_record_no_refractory in Hk. congruence.
  - injection H as <-.
    eexists _, _. split_and!; [done|by eexists|done|].
    intros [[? Href]|(k & inner & Hk & [? Href])]; simplify_map_eq.
    apply lookup_insert_Some in Hk as [[<- Hk]|[_ Hk]]; [|done].
    apply event_code_record_no_refractory in Hk. congruence.
Qed.

(** A step of the loop raises nothing but a [KeyError]. *)
Lemma collect_Events_body_Raise (group : NeuronGroup.t) (st : Events_state)
    (event : string) (e : exn) :
  collect_Events_body get_identifiers group st event = Raise e →
  ∃ key, e = KeyError key.
Proof.
  destruct st as [[event_dict ids] ev]. unfold collect_Events_body.
  intros [H|(threshold & _ & H)]%bind_Raise.
  { unfold getitem in H. case_match; naive_solver. }
  apply bind_Raise in H as [H%assoc_Raise|(thresholder & _ & H)]; [by eexists|].
  rewrite setitem_in_insert in H. simpl in H.
  destruct (NeuronGroup.event_codes group !! event) as [reset|]; [|done].
  apply bind_Raise in H as [H|(resetter & _ & H)].
  { unfold getitem in H. case_match; naive_solver. }
  rewrite setitem_in_insert in H. by simpl in H.
Qed.

Lemma collect_Events_loop_invariant (group : NeuronGroup.t)
    (names : list string) (st : Events_state) :
  foldM (collect_Events_body get_identifiers group) (∅, ∅, None) names = Ok st →
  Events_invariant group st.
Proof.
  apply foldM_invariant.
  - intros [[d ids] ev] event st' _ [Hno _] Hstep.
    apply collect_Events_body_Ok in Hstep as (sub & ids' & -> & Hev & Hkey & Hsub).
    split; simpl.
    + intros e sub' [[<- <-]|[_ He]]%lookup_insert_Some; [done|by eapply Hno].
    + intros ? [= <-]. split_and!; [done|done|].
      exists sub. by rewrite lookup_insert_eq.
  - split; simpl; [|done]. intros e sub. by rewrite lookup_empty.
Qed.

(** After the loop, [event] is the last key that was visited. *)
Lemma collect_Events_loop_last (group : NeuronGroup.t)
    (names : list string) (st0 st : Events_state) :
  names ≠ [] →
  foldM (collect_Events_body get_identifiers group) st0 names = Ok st →
  st.2 = last names.
Proof.
  induction names as [|event names' _] using rev_ind; [done|].
  intros _. rewrite foldM_app. intros (st1 & _ & Hlast)%bind_Ok.
  simpl in Hlast. apply bind_Ok in Hlast as (st2 & Hstep & [= <-]).
  destruct st1 as [[d ids] ev].
  apply collect_Events_body_Ok in Hstep as (? & ? & -> & _).
  by rewrite last_snoc.
Qed.

(** How the result of [collect_Events] comes from the state the loop ends
    in: the refractory period is stored in the sub-record of the event the
    loop ended on, when that event is the spike event. *)
Lemma collect_Events_Ok (group : NeuronGroup.t)
    (event_dict : gmap string value) (ids : gset string) :
  collect_Events get_identifiers group = Ok (event_dict, ids) →
  ∃ d0 event,
    foldM (collect_Events_body get_identifiers group) (∅, ∅, None)
      (keys (NeuronGroup.thresholder group)) = Ok (d0, ids, Some event)
    ∧ ((event = "spike"
        ∧ truthy (NeuronGroup._refractory group) = true
        ∧ ∃ s, d0 !! "spike" = Some (VDict s)
               ∧ event_dict =
                 <["spike" := VDict (<["refractory" :=
                                         NeuronGroup._refractory group]> s)]> d0)
       ∨ ((event ≠ "spike" ∨ truthy (NeuronGroup._refractory group) = false)
          ∧ event_dict = d0)).
Proof.
  unfold collect_Events. intros ([[d0 ids0] ev] & Hloop & H)%bind_Ok.
  destruct ev as [event|]; [|done]. exists d0, event.
  pose proof (collect_Events_loop_invariant _ _ _ Hloop) as [_ Hev].
  destruct (Hev event eq_refl) as (_ & _ & s & Hs). simpl in Hs.
  case_bool_decide as Hspike; simpl in H.
  - destruct (truthy (NeuronGroup._refractory group)) eqn:Hrefr; simpl in H.
    + subst event. unfold setitem_in, getitem in H. rewrite Hs in H.
      simpl in H. injection H as <- <-.
      split; [done|]. left. split_and!; [done..|]. by exists s.
    + injection H as <- <-. split; [done|]. right. split; [by right|done].
  - injection H as <- <-. split; [done|]. right. split; [by left|done].
Qed.

Lemma collect_Events_refractory (group : NeuronGroup.t)
    (event_dict : gmap string value) (ids : gset string)
    (e : string) (sub : value) :
  collect_Events get_identifiers group = Ok (event_dict, ids) →
  event_dict !! e = Some sub →
  has_refractory sub →
  e = "spike"
  ∧ last (keys (NeuronGroup.thresholder group)) = Some "spike"
  ∧ truthy (NeuronGroup._refractory group) = true
  ∧ is_Some (NeuronGroup.events group !! "spike").
Proof.
  intros (d0 & event & Hloop & Hcases)%collect_Events_Ok Hsub Hrefr.
  pose proof (collect_Events_loop_invariant _ _ _ Hloop) as [Hno Hev].
  simpl in Hno, Hev.
  destruct Hcases as [(-> & Htruthy & s & Hs & ->)|[_ ->]];
    [|by destruct (Hno _ _ Hsub)].
  apply lookup_insert_Some in Hsub as [[<- _]|[_ Hsub]];
    [|by destruct (Hno _ _ Hsub)].
  destruct (Hev _ eq_refl) as (_ & Hevents & _).
  split_and!; [done| |done|done].
  destruct (Hev _ eq_refl) as (Hkey & _).
  symmetry. apply (collect_Events_loop_last _ _ _ _) in Hloop; [done|].
  intros Hnil. rewrite Hnil in Hkey. by apply elem_of_nil in Hkey.
Qed.

(** What [collect_Events] does with the refractory period: it stores it,
    in the sub-record of the spike event, when that event is the last one
    of the thresholder mapping. *)
Lemma collect_Events_refractory_last (group : NeuronGroup.t)
    (event_dict : gmap string value) (ids : gset string) :
  collect_Events get_identifiers group = Ok (event_dict, ids) →
  last (keys (NeuronGroup.thresholder group)) = Some "spike" →
  truthy (NeuronGroup._refractory group) = true →
  ∃ s, event_dict !! "spike" = Some (VDict s)
       ∧ s !! "refractory" = Some (NeuronGroup._refractory group).
Proof.
  intros (d0 & event & Hloop & Hcases)%collect_Events_Ok Hlast Htruthy.
  apply collect_Events_loop_last in Hloop; [|by intros Hnil; rewrite Hnil in Hlast].
  simpl in Hloop. rewrite Hlast in Hloop. injection Hloop as ->.
  destruct Hcases as [(_ & _ & s & Hs & ->)|[[?|?] _]]; [|done|congruence].
  eexists. split; [apply lookup_insert_eq|apply lookup_insert_eq].
Qed.

End events.

(** C2. A sub-record of the dictionary that [collect_Events] returns
    carries a refractory field, at its top or in its threshold or reset
    record, only if ["spike"] is one of the events of the group: it has a
    thresholder and a threshold condition. *)
Theorem collect_Events_refractory_spike
    (get_identifiers : string → gset string) (group : NeuronGroup.t)
    (event_dict : gmap string value) (ids : gset string)
    (e : string) (sub : value) :
  collect_Events get_identifiers group = Ok (event_dict, ids) →
  event_dict !! e = Some sub →
  has_refractory sub →
  "spike" ∈ keys (NeuronGroup.thresholder group)
  ∧ is_Some (NeuronGroup.events group !! "spike").
Proof.
  intros Hd Hsub Hrefr.
  destruct (collect_Events_refractory _ _ _ _ _ _ Hd Hsub Hrefr)
    as (_ & Hlast & _ & Hevents).
  split; [|done]. apply last_Some in Hlast as [names ->].
  apply elem_of_app. right. left.
Qed.

(** ** The loops over [contained_objects] *)

Lemma filter_snoc {A} (P : A → Prop) `{∀ x, Decision (P x)} (l : list A) (x : A) :
  filter P (l ++ [x]) = filter P l ++ (if decide (P x) then [x] else []).
Proof. by rewrite filter_app, filter_cons, filter_nil. Qed.

Lemma run_regularly_list_snoc (objs : list Obj.t) (obj : Obj.t) :
  run_regularly_list (objs ++ [obj]) =
  Some (VList (match run_regularly_list objs with
               | Some (VList l) => l
               | _ => []
               end ++ [run_regularly_entry obj])).
Proof.
  destruct objs as [|o objs]; [done|].
  simpl. by rewrite fmap_app.
Qed.

(** [collect_run_regularly] on a dictionary whose [run_regularly], if it
    has one, is the list for the [CodeRunner] objects seen so far. *)
Lemma collect_run_regularly_Ok (d : gmap string value) (seen : list Obj.t)
    (obj : Obj.t) :
  d !! "run_regularly" = run_regularly_list seen →
  ∃ d',
    collect_run_regularly d obj = Ok d'
    ∧ d' !! "run_regularly" =
      run_regularly_list
        (seen ++ if decide (Obj.type obj = CodeRunner) then [obj] else [])
    ∧ ∀ k, k ≠ "run_regularly" → d' !! k = d !! k.
Proof.
  intros Hd. unfold collect_run_regularly, type_is.
  case_decide as Htype.
  - rewrite bool_decide_eq_true_2 by done.
    rewrite Hd, run_regularly_list_snoc. unfold append_in, getitem.
    destruct seen as [|o seen]; simpl.
    + rewrite lookup_insert_eq. simpl. eexists. split; [done|].
      rewrite insert_insert_eq. split; [by rewrite lookup_insert_eq|].
      intros k Hk. by rewrite lookup_insert_ne.
    + simpl in Hd. rewrite Hd. simpl. eexists. split; [done|].
      split; [by rewrite lookup_insert_eq|].
      intros k Hk. by rewrite lookup_insert_ne.
  - rewrite bool_decide_eq_false_2 by done. rewrite app_nil_r. by exists d.
Qed.

Lemma collect_run_regularly_loop (d0 : gmap string value) (objs : list Obj.t) :
  d0 !! "run_regularly" = None →
  ∃ d,
    foldM collect_run_regularly d0 objs = Ok d
    ∧ d !! "run_regularly" =
      run_regularly_list (filter (λ obj, Obj.type obj = CodeRunner) objs)
    ∧ ∀ k, k ≠ "run_regularly" → d !! k = d0 !! k.
Proof.
  intros Hd0. induction objs as [|obj objs IH] using rev_ind.
  - by exists d0.
  - destruct IH as (d & Hd & Hrr & Hother).
    destruct (collect_run_regularly_Ok d _ obj Hrr) as (d' & Hd' & Hrr' & Hother').
    exists d'. rewrite foldM_app, Hd. simpl. rewrite Hd'. simpl.
    split_and!; [done|by rewrite filter_snoc|].
    intros k Hk. by rewrite Hother', Hother.
Qed.

(** The loop of [collect_NeuronGroup]: it always ends, with the list of
    the objects that are exactly [CodeRunner]s under ['run_regularly'],
    the schedule of the last [StateUpdater] under ['when'] and ['order'],
    and nothing else changed. *)
Lemma collect_NeuronGroup_loop (d0 : gmap string value) (objs : list Obj.t) :
  d0 !! "run_regularly" = None →
  ∃ d,
    foldM collect_NeuronGroup_body d0 objs = Ok d
    ∧ d !! "run_regularly" =
      run_regularly_list (filter (λ obj, Obj.type obj = CodeRunner) objs)
    ∧ d !! "when" =
      match last (filter (λ obj, StateUpdater ∈ mro (Obj.type obj)) objs) with
      | Some obj => Some (VStr (Obj.when obj))
      | None => d0 !! "when"
      end
    ∧ d !! "order" =
      match last (filter (λ obj, StateUpdater ∈ mro (Obj.type obj)) objs) with
      | Some obj => Some (VInt (Obj.order obj))
      | None => d0 !! "order"
      end
    ∧ ∀ k, k ≠ "run_regularly" → k ≠ "when" → k ≠ "order" → d !! k = d0 !! k.
Proof.
  intros Hd0. induction objs as [|obj objs IH] using rev_ind.
  - by exists d0.
  - destruct IH as (d & Hd & Hrr & Hwhen & Horder & Hother).
    destruct (collect_run_regularly_Ok d _ obj Hrr) as (d' & Hd' & Hrr' & Hother').
    rewrite foldM_app, Hd. simpl. unfold collect_NeuronGroup_body.
    rewrite Hd'. simpl. rewrite !filter_snoc. unfold isinstance.
    destruct (decide (StateUpdater ∈ mro (Obj.type obj))) as [Hsu|Hsu].
    + rewrite bool_decide_eq_true_2 by done. eexists. split; [done|].
      rewrite last_snoc. split_and!.
      * by rewrite !lookup_insert_ne.
      * by rewrite lookup_insert_ne, lookup_insert_eq.
      * by rewrite lookup_insert_eq.
      * intros k ? ? ?. by rewrite !lookup_insert_ne, Hother', Hother.
    + rewrite bool_decide_eq_false_2 by done. exists d'. split; [done|].
      rewrite app_nil_r. split_and!; [done|by rewrite Hother'..|].
      intros k ? ? ?. by rewrite Hother', Hother.
Qed.

(** ** [collect_NeuronGroup] and [collect_PoissonGroup] *)

Section groups.
Variable get_identifiers : string → gset string.
Variable _prune_identifiers : gmap string value → gmap string value.
Variable order_of : SetOrder.

(** A call of [collect_NeuronGroup] that returns has resolved the
    identifiers of the group and run the loop over the contained objects
    on a dictionary that has an ['identifiers'] exactly when pruning left
    some, and none of the keys the loop writes. *)
Lemma collect_NeuronGroup_Ok (group : NeuronGroup.t)
    (run_namespace neuron_dict : gmap string value) :
  collect_NeuronGroup get_identifiers _prune_identifiers order_of group
    run_namespace = Ok neuron_dict →
  ∃ d0 variables,
    NeuronGroup.resolve_all group
      (NeuronGroup_identifiers get_identifiers group) run_namespace
    = Resolved variables
    ∧ d0 !! "identifiers" = None
    ∧ d0 !! "run_regularly" = None
    ∧ d0 !! "when" = None
    ∧ d0 !! "order" = None
    ∧ foldM collect_NeuronGroup_body
        (if truthy (VDict (_prune_identifiers variables))
         then <["identifiers" := VDict (_prune_identifiers variables)]> d0
         else d0)
        (NeuronGroup.contained_objects group) = Ok neuron_dict.
Proof.
  unfold collect_NeuronGroup, NeuronGroup_identifiers.
  intros (equations & _ & H)%bind_Ok.
  apply bind_Ok in H as ([d1 ids] & Hevents & H).
  apply bind_Ok in H as (variables & Hres & H).
  assert (d1 !! "identifiers" = None ∧ d1 !! "run_regularly" = None
          ∧ d1 !! "when" = None ∧ d1 !! "order" = None
          ∧ ids = Equations.identifiers (NeuronGroup.user_equations group)
                  ∪ (if bool_decide (NeuronGroup.events group = ∅) then ∅
                     else match collect_Events get_identifiers group with
                          | Ok (_, event_identifiers) => event_identifiers
                          | Raise _ => ∅
                          end)) as (Hid & Hrr & Hwhen & Horder & ->).
  { case_bool_decide as Hempty; simpl in Hevents.
    - injection Hevents as <- <-.
      split_and!;
        [destruct (NeuronGroup.method_choice group);
         by rewrite !lookup_insert_ne..|].
      by rewrite (left_id_L ∅ (∪)), (right_id_L ∅ (∪)).
    - apply bind_Ok in Hevents as ([events evids] & -> & [= <- <-]).
      split_and!;
        [destruct (NeuronGroup.method_choice group);
         by rewrite !lookup_insert_ne..|].
      by rewrite (left_id_L ∅ (∪)). }
  exists d1, variables. split_and!; [|done..].
  destruct (NeuronGroup.resolve_all _ _ _); simpl in Hres; congruence.
Qed.

Lemma collect_PoissonGroup_Ok (poisson_grp : PoissonGroup.t)
    (run_namespace poisson_grp_dict : gmap string value) :
  collect_PoissonGroup get_identifiers _prune_identifiers poisson_grp
    run_namespace = Ok poisson_grp_dict →
  ∃ d0 variables,
    PoissonGroup.resolve_all poisson_grp
      (PoissonGroup_identifiers get_identifiers poisson_grp) run_namespace
    = Resolved variables
    ∧ d0 !! "identifiers" = None
    ∧ d0 !! "run_regularly" = None
    ∧ foldM collect_run_regularly
        (if truthy (VDict (_prune_identifiers variables))
         then <["identifiers" := VDict (_prune_identifiers variables)]> d0
         else d0)
        (PoissonGroup.contained_objects poisson_grp) = Ok poisson_grp_dict.
Proof.
  unfold collect_PoissonGroup, PoissonGroup_identifiers.
  intros (variables & Hres & H)%bind_Ok.
  eexists _, variables. split_and!; [|shelve..|exact H].
  - destruct (PoissonGroup._rates poisson_grp);
      rewrite ?(left_id_L ∅ (∪)) in Hres;
      destruct (PoissonGroup.resolve_all _ _ _); simpl in Hres; congruence.
  Unshelve. all: by simplify_map_eq.
Qed.

Lemma truthy_VDict (d : gmap string value) :
  truthy (VDict d) = negb (bool_decide (d = ∅)).
Proof. done. Qed.

Lemma collect_NeuronGroup_identifiers (group : NeuronGroup.t)
    (run_namespace neuron_dict : gmap string value) :
  collect_NeuronGroup get_identifiers _prune_identifiers order_of group
    run_namespace = Ok neuron_dict →
  ∃ variables,
    NeuronGroup.resolve_all group
      (NeuronGroup_identifiers get_identifiers group) run_namespace
    = Resolved variables
    ∧ neuron_dict !! "identifiers" =
      if bool_decide (_prune_identifiers variables = ∅) then None
      else Some (VDict (_prune_identifiers variables)).
Proof.
  intros (d0 & variables & Hres & Hid & Hrr & _ & _ & Hloop)%collect_NeuronGroup_Ok.
  exists variables. split; [done|].
  rewrite truthy_VDict in Hloop.
  edestruct (collect_NeuronGroup_loop) as (d & Hd & _ & _ & _ & Hother);
    [|rewrite Hd in Hloop; injection Hloop as <-; rewrite Hother by done].
  - case_bool_decide; simpl; [done|by rewrite lookup_insert_ne].
  - case_bool_decide; simpl; [done|by rewrite lookup_insert_eq].
Qed.

Lemma collect_PoissonGroup_identifiers (poisson_grp : PoissonGroup.t)
    (run_namespace poisson_grp_dict : gmap string value) :
  collect_PoissonGroup get_identifiers _prune_identifiers poisson_grp
    run_namespace = Ok poisson_grp_dict →
  ∃ variables,
    PoissonGroup.resolve_all poisson_grp
      (PoissonGroup_identifiers get_identifiers poisson_grp) run_namespace
    = Resolved variables
    ∧ poisson_grp_dict !! "identifiers" =
      if bool_decide (_prune_identifiers variables = ∅) then None
      else Some (VDict (_prune_identifiers variables)).
Proof.
  intros (d0 & variables & Hres & Hid & Hrr & Hloop)%collect_PoissonGroup_Ok.
  exists variables. split; [done|].
  rewrite truthy_VDict in Hloop.
  edestruct (collect_run_regularly_loop) as (d & Hd & _ & Hother);
    [|rewrite Hd in Hloop; injection Hloop as <-; rewrite Hother by done].
  - case_bool_decide; simpl; [done|by rewrite lookup_insert_ne].
  - case_bool_decide; simpl; [done|by rewrite lookup_insert_eq].
Qed.

End groups.

(** C5. In a record that [collect_NeuronGroup] or [collect_PoissonGroup]
    returns, the identifiers of the group have been resolved and pruned;
    when none is left the record has no ['identifiers'] key, and otherwise
    the key holds exactly the identifiers that are left. *)
Theorem identifiers_key_absent_when_empty
    (get_identifiers : string → gset string)
    (_prune_identifiers : gmap string value → gmap string value)
    (order_of : SetOrder) (run_namespace : gmap string value) :
  (∀ group neuron_dict,
     collect_NeuronGroup get_identifiers _prune_identifiers order_of group
       run_namespace = Ok neuron_dict →
     ∃ variables,
       NeuronGroup.resolve_all group
         (NeuronGroup_identifiers get_identifiers group) run_namespace
       = Resolved variables
       ∧ (_prune_identifiers variables = ∅ →
          neuron_dict !! "identifiers" = None)
       ∧ (_prune_identifiers variables ≠ ∅ →
          neuron_dict !! "identifiers"
          = Some (VDict (_prune_identifiers variables))))
  ∧ (∀ poisson_grp poisson_grp_dict,
       collect_PoissonGroup get_identifiers _prune_identifiers poisson_grp
         run_namespace = Ok poisson_grp_dict →
       ∃ variables,
         PoissonGroup.resolve_all poisson_grp
           (PoissonGroup_identifiers get_identifiers poisson_grp) run_namespace
         = Resolved variables
         ∧ (_prune_identifiers variables = ∅ →
            poisson_grp_dict !! "identifiers" = None)
         ∧ (_prune_identifiers variables ≠ ∅ →
            poisson_grp_dict !! "identifiers"
            = Some (VDict (_prune_identifiers variables)))).
Proof.
  split.
  - intros group neuron_dict
      (variables & Hres & Hid)%collect_NeuronGroup_identifiers.
    exists variables. split; [done|]. rewrite Hid.
    split; intros ?; [by rewrite bool_decide_eq_true_2
                     |by rewrite bool_decide_eq_false_2].
  - intros poisson_grp poisson_grp_dict
      (variables & Hres & Hid)%collect_PoissonGroup_identifiers.
    exists variables. split; [done|]. rewrite Hid.
    split; intros ?; [by rewrite bool_decide_eq_true_2
                     |by rewrite bool_decide_eq_false_2].
Qed.

(** C8. In a record that [collect_NeuronGroup] returns, ['run_regularly']
    lists one entry for each contained object whose type is exactly
    [CodeRunner], in their order, and is absent when there is none: an
    object of a subclass ([StateUpdater], [Thresholder], [Resetter])
    contributes no entry.  ['when'] and ['order'] are those of the contained
    [StateUpdater] (the last one, should there be several), and are absent
    when there is none. *)
Theorem collect_NeuronGroup_contained_objects
    (get_identifiers : string → gset string)
    (_prune_identifiers : gmap string value → gmap string value)
    (order_of : SetOrder) (group : NeuronGroup.t)
    (run_namespace neuron_dict : gmap string value) :
  collect_NeuronGroup get_identifiers _prune_identifiers order_of group
    run_namespace = Ok neuron_dict →
  let code_runners :=
    filter (λ obj, Obj.type obj = CodeRunner)
      (NeuronGroup.contained_objects group) in
  let state_updaters :=
    filter (λ obj, StateUpdater ∈ mro (Obj.type obj))
      (NeuronGroup.contained_objects group) in
  neuron_dict !! "run_regularly" =
    match code_runners with
    | [] => None
    | _ => Some (VList (run_regularly_entry <$> code_runners))
    end
  ∧ neuron_dict !! "when" = (λ obj, VStr (Obj.when obj)) <$> last state_updaters
  ∧ neuron_dict !! "order" = (λ obj, VInt (Obj.order obj)) <$> last state_updaters.
Proof.
  intros (d0 & variables & _ & _ & Hrr & Hwhen & Horder & Hloop)%collect_NeuronGroup_Ok.
  simpl.
  edestruct (collect_NeuronGroup_loop) as (d & Hd & Hrr' & Hwhen' & Horder' & _);
    [|rewrite Hd in Hloop; injection Hloop as <-].
  { case_match; [by rewrite lookup_insert_ne|done]. }
  split_and!.
  - rewrite Hrr'. unfold run_regularly_list. by case_match.
  - rewrite Hwhen'. destruct (last _); [done|].
    case_match; [by rewrite lookup_insert_ne|done].
  - rewrite Horder'. destruct (last _); [done|].
    case_match; [by rewrite lookup_insert_ne|done].
Qed.

(** ** Which calls raise [UnboundLocalError] *)

Lemma getitem_Raise {A} (m : gmap string A) (key : string) (e : exn) :
  getitem m key = Raise e → e = KeyError key.
Proof. unfold getitem. case_match; congruence. Qed.

Lemma setitem_in_Raise (d : gmap string value) (k1 k2 : string) (v : value)
    (e : exn) :
  setitem_in d k1 k2 v = Raise e → ¬ is_UnboundLocalError e.
Proof.
  unfold setitem_in.
  intros [->%getitem_Raise|(sub & _ & H)]%bind_Raise; [by intros []|].
  destruct sub; simplify_eq; by intros [].
Qed.

Lemma collect_Equations_Raise (order_of : SetOrder) (equations : Equations.t)
    (e : exn) :
  collect_Equations order_of equations = Raise e → ¬ is_UnboundLocalError e.
Proof.
  intros (d & name & _ & H)%foldM_Raise.
  rewrite collect_Equations_body_entry in H.
  apply bind_Raise in H as [->%getitem_Raise|(eqs & _ & H)]; [by intros []|].
  apply bind_Raise in H as [H|(entry & _ & [=])].
  unfold equation_entry in H.
  apply bind_Raise in H as [H|(entry & _ & [=])].
  repeat case_match; simplify_eq. by intros [].
Qed.

Lemma collect_run_regularly_Raise (d : gmap string value) (obj : Obj.t)
    (e : exn) :
  collect_run_regularly d obj = Raise e → ¬ is_UnboundLocalError e.
Proof.
  unfold collect_run_regularly, append_in.
  destruct (type_is obj CodeRunner); [|done].
  intros [->%getitem_Raise|(l & _ & H)]%bind_Raise; [by intros []|].
  destruct l; simplify_eq; by intros [].
Qed.

Lemma collect_NeuronGroup_body_Raise (d : gmap string value) (obj : Obj.t)
    (e : exn) :
  collect_NeuronGroup_body d obj = Raise e → ¬ is_UnboundLocalError e.
Proof.
  unfold collect_NeuronGroup_body.
  intros [H%collect_run_regularly_Raise|(d' & _ & H)]%bind_Raise; [done|].
  by case_match.
Qed.

(** [collect_Events] raises [UnboundLocalError] only for a group without a
    thresholder. *)
Lemma collect_Events_Raise (get_identifiers : string → gset string)
    (group : NeuronGroup.t) (e : exn) :
  collect_Events get_identifiers group = Raise e →
  is_UnboundLocalError e →
  NeuronGroup.thresholder group = [].
Proof.
  unfold collect_Events.
  intros [(st & event & _ & H)%foldM_Raise|([[d0 ids] ev] & Hloop & H)]%bind_Raise.
  { apply collect_Events_body_Raise in H as [key ->]. by intros []. }
  destruct ev as [event|].
  - destruct (_ && _); [|done].
    apply bind_Raise in H as [H'%setitem_in_Raise|(? & _ & [=])]. done.
  - intros _. destruct (decide (keys (NeuronGroup.thresholder group) = []))
      as [Hnil|Hne]; [by apply fmap_nil_inv in Hnil|].
    apply (collect_Events_loop_last _ _ _ _ _ Hne) in Hloop. simpl in Hloop.
    symmetry in Hloop. by apply last_None in Hloop.
Qed.

(** C10. [collect_Events] on a group whose thresholder mapping is empty
    raises [UnboundLocalError] for the loop variable [event] (it does not
    return an empty mapping), and raises it on no other group.
    [collect_NeuronGroup] calls [collect_Events] only for a group with
    events: when each event of the group has a thresholder, as in a group
    that Brian built, [collect_NeuronGroup] never raises
    [UnboundLocalError]. *)
Theorem collect_Events_requires_an_event
    (get_identifiers : string → gset string)
    (_prune_identifiers : gmap string value → gmap string value)
    (order_of : SetOrder) (group : NeuronGroup.t) :
  (NeuronGroup.thresholder group = [] →
   collect_Events get_identifiers group = Raise (UnboundLocalError "event"))
  ∧ (NeuronGroup.thresholder group ≠ [] →
     ∀ var, collect_Events get_identifiers group ≠ Raise (UnboundLocalError var))
  ∧ ((∀ event, is_Some (NeuronGroup.events group !! event) →
               event ∈ keys (NeuronGroup.thresholder group)) →
     ∀ run_namespace var,
       collect_NeuronGroup get_identifiers _prune_identifiers order_of group
         run_namespace ≠ Raise (UnboundLocalError var)).
Proof.
  split_and!.
  - intros Hnil. unfold collect_Events. by rewrite Hnil.
  - intros Hne var H. by apply collect_Events_Raise in H.
  - intros Hthr run_namespace var. unfold collect_NeuronGroup.
    intros [H%collect_Equations_Raise|(equations & _ & H)]%bind_Raise;
      [by apply H|].
    apply bind_Raise in H as [H|([d1 ids] & _ & H)].
    { case_bool_decide as Hempty; simpl in H; [done|].
      apply bind_Raise in H as [H|([events evids] & _ & [=])].
      apply collect_Events_Raise in H; [|done].
      apply map_choose in Hempty as (event & threshold & Hevent).
      specialize (Hthr event (mk_is_Some _ _ Hevent)).
      rewrite H in Hthr. by apply elem_of_nil in Hthr. }
    apply bind_Raise in H as [H|(variables & _ & H)].
    { by destruct (NeuronGroup.resolve_all _ _ _). }
    apply foldM_Raise in H as (d & obj & _ & H%collect_NeuronGroup_body_Raise).
    by apply H.
Qed.

(** ** Independence of the order in which a set is iterated *)

Lemma same_outcome_refl {A} (r : result A) : same_outcome r r.
Proof. by destruct r. Qed.

Lemma same_outcome_bind {A B} (m1 m2 : result A) (f1 f2 : A → result B) :
  same_outcome m1 m2 →
  (∀ a, same_outcome (f1 a) (f2 a)) →
  same_outcome (m1 ≫= f1) (m2 ≫= f2).
Proof.
  destruct m1 as [a1|e1], m2 as [a2|e2]; simpl; try done.
  intros -> Hf. apply Hf.
Qed.

Lemma collect_Equations_body_Raise (equations : Equations.t)
    (d : gmap string value) (name : string) (e : exn) :
  collect_Equations_body equations d name = Raise e →
  entry_for equations name = Raise e.
Proof.
  rewrite collect_Equations_body_entry. unfold entry_for.
  destruct (getitem _ name) as [eqs|]; simpl; [|done].
  by destruct (equation_entry eqs).
Qed.

Lemma collect_Equations_Ok_Raise (o1 o2 : SetOrder) (equations : Equations.t)
    (d : gmap string value) (e : exn) :
  collect_Equations o1 equations = Ok d →
  collect_Equations o2 equations = Raise e → False.
Proof.
  intros Hd (d' & name & Hname & H%collect_Equations_body_Raise)%foldM_Raise.
  rewrite (set_iter_perm o2 _), elem_of_elements in Hname.
  destruct (collect_Equations_lookup o1 _ _ name Hd) as [Hin _].
  destruct (Hin Hname) as (entry & Hentry & _). congruence.
Qed.

Lemma collect_Equations_order (o1 o2 : SetOrder) (equations : Equations.t) :
  same_outcome (collect_Equations o1 equations) (collect_Equations o2 equations).
Proof.
  destruct (collect_Equations o1 equations) as [d1|e1] eqn:H1,
           (collect_Equations o2 equations) as [d2|e2] eqn:H2; simpl.
  - apply map_eq. intros name.
    destruct (collect_Equations_lookup o1 _ _ name H1) as [Hin1 Hout1].
    destruct (collect_Equations_lookup o2 _ _ name H2) as [Hin2 Hout2].
    destruct (decide (name ∈ Equations_names equations)) as [Hname|Hname].
    + destruct (Hin1 Hname) as (entry1 & Hentry1 & ->).
      destruct (Hin2 Hname) as (entry2 & Hentry2 & ->). congruence.
    + by rewrite Hout1, Hout2.
  - by eapply collect_Equations_Ok_Raise.
  - by eapply collect_Equations_Ok_Raise.
  - done.
Qed.

(** C9. Two calls of a collector on the same object and run namespace end
    alike, whatever the order in which each of them iterates the sets of
    names it meets: both return, and the same record, or both raise.  This
    holds of [collect_NeuronGroup], [collect_Synapses] and
    [collect_Equations], the collectors that iterate a set. *)
Theorem collectors_deterministic
    (get_identifiers : string → gset string)
    (_prune_identifiers : gmap string value → gmap string value)
    (o1 o2 : SetOrder) :
  (∀ group run_namespace,
     same_outcome
       (collect_NeuronGroup get_identifiers _prune_identifiers o1 group
          run_namespace)
       (collect_NeuronGroup get_identifiers _prune_identifiers o2 group
          run_namespace))
  ∧ (∀ synapses,
       same_outcome (collect_Synapses o1 synapses) (collect_Synapses o2 synapses))
  ∧ (∀ equations,
       same_outcome (collect_Equations o1 equations)
         (collect_Equations o2 equations)).
Proof.
  split_and!.
  - intros group run_namespace. unfold collect_NeuronGroup.
    apply same_outcome_bind; [apply collect_Equations_order|].
    intros equations. apply same_outcome_refl.
  - intros synapses. unfold collect_Synapses.
    apply same_outcome_bind; [apply collect_Equations_order|].
    intros equations.
    apply same_outcome_bind; [|intros; apply same_outcome_refl].
    destruct (Synapses.event_driven synapses) as [event_driven|];
      [|apply same_outcome_refl].
    destruct (Equations_bool event_driven); [|apply same_outcome_refl].
    apply same_outcome_bind; [apply collect_Equations_order|].
    intros; apply same_outcome_refl.
  - apply collect_Equations_order.
Qed.

(** ** Monitors *)

(** C6. [collect_SpikeMonitor] returns, for every monitor, the record that
    [collect_EventMonitor] returns for it, unchanged: the record with the
    eight keys of an event monitor. *)
Theorem collect_SpikeMonitor_EventMonitor (spike_mon : EventMonitor.t) :
  collect_SpikeMonitor spike_mon = collect_EventMonitor spike_mon
  ∧ dom (collect_SpikeMonitor spike_mon) =
    list_to_set ["name"; "event"; "source"; "variables"; "record"; "dt";
                 "when"; "order"].
Proof.
  split; [reflexivity|].
  unfold collect_SpikeMonitor, collect_EventMonitor.
  rewrite !dom_insert_L, dom_empty_L. simpl.
  apply set_eq. intros key. rewrite !elem_of_union, !elem_of_singleton.
  rewrite elem_of_empty. tauto.
Qed.

(** ** [collect_Synapses] *)

Lemma update_lookup (d other : gmap string value) (name : string) :
  update d other !! name =
  match other !! name with Some v => Some v | None => d !! name end.
Proof.
  unfold update. destruct (other !! name) as [v|] eqn:Hother.
  - by apply lookup_union_Some_l.
  - by rewrite lookup_union_r.
Qed.

(** The ['equations'] of the record of [collect_Synapses], from the
    dictionaries of its two equation sets. *)
Lemma collect_Synapses_merged (order_of : SetOrder) (synapses : Synapses.t)
    (static : gmap string value) :
  collect_Equations order_of (Synapses.equations synapses) = Ok static →
  (∀ event_driven, Synapses.event_driven synapses = Some event_driven →
                   is_Ok (collect_Equations order_of event_driven)) →
  ∃ synapse_dict,
    collect_Synapses order_of synapses = Ok synapse_dict
    ∧ synapse_dict !! "equations" =
      Some (VDict
              match Synapses.event_driven synapses with
              | Some event_driven =>
                  match collect_Equations order_of event_driven with
                  | Ok event_driven_dict => update static event_driven_dict
                  | Raise _ => static
                  end
              | None => static
              end).
Proof.
  intros Hstatic Hev. unfold collect_Synapses. rewrite Hstatic. simpl.
  assert (∀ (d : gmap string value) (b : bool) v,
            (if b then <["summed_variables" := v]> d else d) !! "equations"
            = d !! "equations") as Hsummed.
  { intros d [] v; [by rewrite lookup_insert_ne|done]. }
  destruct (Synapses.event_driven synapses) as [event_driven|]; simpl.
  - destruct (Hev _ eq_refl) as [ed Hed]. rewrite Hed.
    destruct (Equations_bool event_driven) eqn:Hbool; simpl.
    + unfold update_in, getitem. rewrite lookup_insert_eq. simpl.
      eexists. split; [done|].
      by rewrite Hsummed, lookup_insert_eq.
    + eexists. split; [done|].
      rewrite Hsummed, lookup_insert_eq. do 2 f_equal.
      apply negb_false_iff, bool_decide_eq_true in Hbool.
      rewrite (collect_Equations_empty _ _ _ Hed Hbool).
      apply map_eq. intros name. by rewrite update_lookup, lookup_empty.
  - eexists. split; [done|]. by rewrite Hsummed, lookup_insert_eq.
Qed.

(** C7. For a connection whose equation sets have an equation for each of
    their names, the ['equations'] of the record of [collect_Synapses] has a
    key for every name of the static set and for every name of the
    event-driven set, when there is one, and no other key; under a name of
    the event-driven set it holds the entry collected from that set, also
    when the static set defines the name, and under any other name the entry
    collected from the static set. *)
Theorem collect_Synapses_equations (order_of : SetOrder)
    (synapses : Synapses.t) :
  Equations_wf (Synapses.equations synapses) = true →
  (∀ event_driven, Synapses.event_driven synapses = Some event_driven →
                   Equations_wf event_driven = true) →
  ∃ synapse_dict merged static event_driven_dict,
    collect_Synapses order_of synapses = Ok synapse_dict
    ∧ synapse_dict !! "equations" = Some (VDict merged)
    ∧ collect_Equations order_of (Synapses.equations synapses) = Ok static
    ∧ match Synapses.event_driven synapses with
      | Some event_driven =>
          collect_Equations order_of event_driven = Ok event_driven_dict
      | None => event_driven_dict = ∅
      end
    ∧ dom merged =
      Equations_names (Synapses.equations synapses)
      ∪ from_option Equations_names ∅ (Synapses.event_driven synapses)
    ∧ (∀ name, is_Some (event_driven_dict !! name) →
               merged !! name = event_driven_dict !! name)
    ∧ (∀ name, event_driven_dict !! name = None →
               merged !! name = static !! name).
Proof.
  intros Hwf Hwf_ev.
  destruct (collect_Equations_is_Ok order_of _ Hwf) as [static Hstatic].
  destruct (collect_Synapses_merged order_of synapses static Hstatic)
    as (synapse_dict & Hd & Hmerged).
  { intros event_driven Hev. by apply collect_Equations_is_Ok, Hwf_ev. }
  pose proof (collect_Equations_dom _ _ _ Hstatic) as Hdom.
  destruct (Synapses.event_driven synapses) as [event_driven|] eqn:Hevd.
  - destruct (collect_Equations_is_Ok order_of _ (Hwf_ev _ eq_refl))
      as [ed Hed].
    rewrite Hed in Hmerged.
    exists synapse_dict, (update static ed), static, ed.
    split_and!; [done..| | |].
    + unfold update. rewrite dom_union_L, Hdom.
      rewrite (collect_Equations_dom _ _ _ Hed). simpl. apply (comm_L (∪)).
    + intros name [v Hv]. by rewrite update_lookup, Hv.
    + intros name Hnone. by rewrite update_lookup, Hnone.
  - exists synapse_dict, static, static, ∅.
    split_and!; [done..| | |].
    + simpl. by rewrite Hdom, (right_id_L ∅ (∪)).
    + intros name [v Hv]. by rewrite lookup_empty in Hv.
    + done.
Qed.

(** ** The refractory period and the order of the events *)

(** C1. For the group with the events ["spike"] and ["custom"], in this
    order, and a refractory period of 2 ms, [collect_Events] returns a
    mapping in which no sub-record has a refractory field, the one of
    ["spike"] included: the refractory period of a group that defines the
    spike event is not attached.  With the same events in the order
    ["custom"], ["spike"] it is attached to the sub-record of ["spike"]. *)
Theorem collect_Events_refractory_depends_on_order :
  truthy (NeuronGroup._refractory Examples.group_spike_first) = true
  ∧ "spike" ∈ keys (NeuronGroup.thresholder Examples.group_spike_first)
  ∧ collect_Events Examples.get_identifiers Examples.group_spike_first =
    Ok ({[ "spike" :=
             VDict {[ "threshold" :=
                        event_code_record "v > 1" Examples.spike_thresholder ]};
           "custom" :=
             VDict {[ "threshold" :=
                        event_code_record "v > 2" Examples.custom_thresholder ]} ]},
        {[ "v" ]})
  ∧ (∀ event_dict ids e sub,
       collect_Events Examples.get_identifiers Examples.group_spike_first
       = Ok (event_dict, ids) →
       event_dict !! e = Some sub → ¬ has_refractory sub)
  ∧ collect_Events Examples.get_identifiers Examples.group_spike_last =
    Ok ({[ "spike" :=
             VDict {[ "threshold" :=
                        event_code_record "v > 1" Examples.spike_thresholder;
                      "reset" :=
                        event_code_record "v = 0" Examples.spike_resetter;
                      "refractory" := VQuantity (Examples.ms 2) ]};
           "custom" :=
             VDict {[ "threshold" :=
                        event_code_record "v > 2" Examples.custom_thresholder ]} ]},
        {[ "v" ]}).
Proof.
  split_and!.
  - reflexivity.
  - simpl. left.
  - vm_compute. reflexivity.
  - intros event_dict ids e sub Hd Hsub Hrefr.
    destruct (collect_Events_refractory _ _ _ _ _ _ Hd Hsub Hrefr)
      as (_ & Hlast & _). discriminate Hlast.
  - vm_compute. reflexivity.
Qed.


(** ** The theorems at the example objects *)

Lemma collect_Events_refractory_spike_B :
  "spike" ∈ keys (NeuronGroup.thresholder Examples.group_B)
  ∧ is_Some (NeuronGroup.events Examples.group_B !! "spike").
Proof.
  apply (collect_Events_refractory_spike Examples.get_identifiers
           Examples.group_B Examples.events_B {[ "v" ]} "spike"
           (VDict {[ "threshold" :=
                       event_code_record "v > 1" Examples.spike_thresholder;
                     "refractory" := VQuantity (Examples.ms 2) ]})).
  - vm_compute. reflexivity.
  - vm_compute. reflexivity.
  - left. exists (VQuantity (Examples.ms 2)). vm_compute. reflexivity.
Defined.

Lemma collect_Equations_keys_v :
  Equations_wf Examples.eqs_v = true
  ∧ ∃ eqn_dict,
      collect_Equations elements_order Examples.eqs_v = Ok eqn_dict
      ∧ dom eqn_dict = {[ "v" ]} ∪ ∅ ∪ {[ "tau" ]}
      ∧ NoDup (map_to_list eqn_dict).*1
      ∧ length (map_to_list eqn_dict) = 2.
Proof.
  split; [vm_compute; reflexivity|].
  apply (collect_Equations_keys elements_order Examples.eqs_v).
  vm_compute. reflexivity.
Defined.

Lemma collect_Equations_expr_tau :
  ∃ entry kind,
    VDict {[ "unit" := VUnit "s"; "type" := VStr "parameter";
             "var_type" := VStr "float"; "flags" := strs ["constant"] ]}
    = VDict entry
    ∧ entry !! "type" = Some (VStr kind)
    ∧ (is_Some (entry !! "expr") ↔ kind ≠ PARAMETER).
Proof.
  apply (collect_Equations_expr elements_order Examples.eqs_v
           Examples.eqn_dict_v "tau").
  - vm_compute. reflexivity.
  - vm_compute. reflexivity.
Defined.

Lemma identifiers_key_B_poisson :
  (∃ variables,
     NeuronGroup.resolve_all Examples.group_B
       (NeuronGroup_identifiers Examples.get_identifiers Examples.group_B)
       Examples.run_namespace = Resolved variables
     ∧ (Examples._prune_identifiers variables = ∅ →
        Examples.neuron_dict_B !! "identifiers" = None)
     ∧ (Examples._prune_identifiers variables ≠ ∅ →
        Examples.neuron_dict_B !! "identifiers"
        = Some (VDict (Examples._prune_identifiers variables))))
  ∧ (∃ variables,
       PoissonGroup.resolve_all Examples.poisson_grp
         (PoissonGroup_identifiers Examples.get_identifiers
            Examples.poisson_grp)
         Examples.run_namespace = Resolved variables
       ∧ (Examples._prune_identifiers variables = ∅ →
          Examples.poisson_grp_dict !! "identifiers" = None)
       ∧ (Examples._prune_identifiers variables ≠ ∅ →
          Examples.poisson_grp_dict !! "identifiers"
          = Some (VDict (Examples._prune_identifiers variables)))).
Proof.
  split.
  - apply (proj1 (identifiers_key_absent_when_empty Examples.get_identifiers
                    Examples._prune_identifiers elements_order
                    Examples.run_namespace)
             Examples.group_B Examples.neuron_dict_B).
    vm_compute. reflexivity.
  - apply (proj2 (identifiers_key_absent_when_empty Examples.get_identifiers
                    Examples._prune_identifiers elements_order
                    Examples.run_namespace)
             Examples.poisson_grp Examples.poisson_grp_dict).
    vm_compute. reflexivity.
Defined.

Lemma collect_Synapses_equations_w :
  ∃ synapse_dict merged static event_driven_dict,
    collect_Synapses elements_order Examples.synapses = Ok synapse_dict
    ∧ synapse_dict !! "equations" = Some (VDict merged)
    ∧ collect_Equations elements_order Examples.eqs_static = Ok static
    ∧ collect_Equations elements_order Examples.eqs_event_driven
      = Ok event_driven_dict
    ∧ dom merged =
      Equations_names Examples.eqs_static
      ∪ Equations_names Examples.eqs_event_driven
    ∧ (∀ name, is_Some (event_driven_dict !! name) →
               merged !! name = event_driven_dict !! name)
    ∧ (∀ name, event_driven_dict !! name = None →
               merged !! name = static !! name).
Proof.
  apply (collect_Synapses_equations elements_order Examples.synapses).
  - vm_compute. reflexivity.
  - intros event_driven [= <-]. vm_compute. reflexivity.
Defined.

Lemma collect_NeuronGroup_contained_objects_B :
  Examples.neuron_dict_B !! "run_regularly"
  = Some (VList [run_regularly_entry Examples.run_regularly])
  ∧ Examples.neuron_dict_B !! "when" = Some (VStr "groups")
  ∧ Examples.neuron_dict_B !! "order" = Some (VInt 0).
Proof.
  apply (collect_NeuronGroup_contained_objects Examples.get_identifiers
           Examples._prune_identifiers elements_order Examples.group_B
           Examples.run_namespace Examples.neuron_dict_B).
  vm_compute. reflexivity.
Defined.

Lemma collect_Events_requires_an_event_A_B :
  collect_Events Examples.get_identifiers Examples.group_A
  = Raise (UnboundLocalError "event")
  ∧ collect_NeuronGroup Examples.get_identifiers Examples._prune_identifiers
      elements_order Examples.group_A Examples.run_namespace
    ≠ Raise (UnboundLocalError "event")
  ∧ collect_NeuronGroup Examples.get_identifiers Examples._prune_identifiers
      elements_order Examples.group_B Examples.run_namespace
    ≠ Raise (UnboundLocalError "event").
Proof.
  split_and!.
  - apply (proj1 (collect_Events_requires_an_event Examples.get_identifiers
                    Examples._prune_identifiers elements_order
                    Examples.group_A)).
    reflexivity.
  - apply (proj2 (proj2 (collect_Events_requires_an_event
                           Examples.get_identifiers
                           Examples._prune_identifiers elements_order
                           Examples.group_A))).
    intros event [threshold Hevent]. discriminate Hevent.
  - apply (proj2 (proj2 (collect_Events_requires_an_event
                           Examples.get_identifiers
                           Examples._prune_identifiers elements_order
                           Examples.group_B))).
    intros event [threshold Hevent].
    cbv [Examples.group_B NeuronGroup.events] in Hevent.
    apply lookup_singleton_Some in Hevent as [<- _]. simpl. left.
Defined.

(** Scenario A of the specification. *)
Lemma collect_NeuronGroup_A :
  collect_NeuronGroup Examples.get_identifiers Examples._prune_identifiers
    elements_order Examples.group_A Examples.run_namespace
  = Ok Examples.neuron_dict_A.
Proof. vm_compute. reflexivity. Qed.

(** Scenario B of the specification. *)
Lemma collect_NeuronGroup_B :
  collect_NeuronGroup Examples.get_identifiers Examples._prune_identifiers
    elements_order Examples.group_B Examples.run_namespace
  = Ok Examples.neuron_dict_B.
Proof. vm_compute. reflexivity. Qed.

Lemma collect_SpikeMonitor_event :
  collect_SpikeMonitor Examples.spike_mon !! "event" = Some (VStr "spike").
Proof. reflexivity. Qed.

(** The names of the example equations visited in the opposite order. *)
Lemma collect_Equations_reverse_order :
  set_iter reverse_order (Equations_names Examples.eqs_v)
  = reverse (set_iter elements_order (Equations_names Examples.eqs_v))
  ∧ collect_Equations reverse_order Examples.eqs_v = Ok Examples.eqn_dict_v
  ∧ collect_Equations elements_order Examples.eqs_v = Ok Examples.eqn_dict_v.
Proof. split_and!; [reflexivity|vm_compute; reflexivity..]. Qed.

Set Warnings "-clear-no-such-hyp".

(** ** More on [collect_Equations] *)

Lemma equation_entry_Ok (eqs : SingleEquation.t) :
  is_Ok (equation_entry eqs) ↔ SingleEquation_ok eqs = true.
Proof.
  split; [|apply SingleEquation_ok_entry].
  unfold SingleEquation_ok, equation_entry. intros [entry Hentry].
  apply orb_true_iff.
  destruct (decide (SingleEquation.type eqs = PARAMETER)) as [Hkind|Hkind];
    [left; by apply bool_decide_eq_true|].
  right. apply bool_decide_eq_true.
  rewrite bool_decide_eq_true_2 in Hentry by done.
  by destruct (SingleEquation.expr eqs).
Qed.

Lemma equation_entry_Raise (eqs : SingleEquation.t) (e : exn) :
  equation_entry eqs = Raise e →
  SingleEquation.type eqs ≠ PARAMETER
  ∧ SingleEquation.expr eqs = None
  ∧ e = AttributeError "code".
Proof.
  unfold equation_entry. case_bool_decide as Hkind; [|done].
  destruct (SingleEquation.expr eqs); [done|]. simpl. by intros [= <-].
Qed.

Lemma collect_Equations_is_Ok_iff (order_of : SetOrder)
    (equations : Equations.t) :
  is_Ok (collect_Equations order_of equations)
  ↔ Equations_wf equations = true.
Proof.
  split; [|apply collect_Equations_is_Ok].
  intros [d Hd]. unfold Equations_wf. apply forallb_forall.
  intros name Hname%list_elem_of_In%elem_of_elements.
  destruct (collect_Equations_lookup order_of _ _ name Hd) as [Hin _].
  destruct (Hin Hname) as (entry & Hentry & _).
  unfold entry_for in Hentry.
  apply bind_Ok in Hentry as (eqs & Heqs%getitem_Ok & Hentry).
  rewrite Heqs. apply equation_entry_Ok. by exists entry.
Qed.

(** X1. [collect_Equations] returns exactly for the equation sets in which
    each name has an equation, with an expression unless it is a parameter.
    Otherwise it raises the [KeyError] of a name without equation, or the
    [AttributeError] of reading the code of an expression that is not
    there. *)
Theorem collect_Equations_returns_iff (order_of : SetOrder)
    (equations : Equations.t) :
  (is_Ok (collect_Equations order_of equations)
   ↔ Equations_wf equations = true)
  ∧ ∀ e, collect_Equations order_of equations = Raise e →
      ∃ name, name ∈ Equations_names equations
        ∧ ((Equations._equations equations !! name = None
            ∧ e = KeyError name)
           ∨ (∃ eqs, Equations._equations equations !! name = Some eqs
                ∧ SingleEquation.type eqs ≠ PARAMETER
                ∧ SingleEquation.expr eqs = None
                ∧ e = AttributeError "code")).
Proof.
  split; [apply collect_Equations_is_Ok_iff|].
  intros e (d & name & Hname & H)%foldM_Raise.
  rewrite (set_iter_perm order_of _), elem_of_elements in Hname.
  exists name. split; [done|].
  rewrite collect_Equations_body_entry in H.
  apply bind_Raise in H as [H|(eqs & Heqs%getitem_Ok & H)].
  - left. unfold getitem in H. destruct (_ !! name); [done|].
    by injection H as <-.
  - right. exists eqs. split; [done|].
    apply bind_Raise in H as [H%equation_entry_Raise|(entry & _ & [=])].
    done.
Qed.

(** X2. In the dictionary that [collect_Equations] returns, the entry of a
    name holds the unit, the type and the variable type of its equation; the
    code of its expression under ['expr'] unless it is a parameter; its
    flags under ['flags'] when it has some, and no ['flags'] key when it has
    none; and no other key. *)
Theorem collect_Equations_entry (order_of : SetOrder)
    (equations : Equations.t) (eqn_dict : gmap string value)
    (name : string) (eqs : SingleEquation.t) :
  collect_Equations order_of equations = Ok eqn_dict →
  name ∈ Equations_names equations →
  Equations._equations equations !! name = Some eqs →
  ∃ entry,
    eqn_dict !! name = Some (VDict entry)
    ∧ entry !! "unit" = Some (VUnit (SingleEquation.unit eqs))
    ∧ entry !! "type" = Some (VStr (SingleEquation.type eqs))
    ∧ entry !! "var_type" = Some (VStr (SingleEquation.var_type eqs))
    ∧ entry !! "expr" =
      (if bool_decide (SingleEquation.type eqs = PARAMETER) then None
       else (λ expr, VStr (code expr)) <$> SingleEquation.expr eqs)
    ∧ entry !! "flags" =
      match SingleEquation.flags eqs with
      | [] => None
      | flags => Some (strs flags)
      end
    ∧ dom entry ⊆ {[ "unit"; "type"; "var_type"; "expr"; "flags" ]}.
Proof.
  intros Hd Hname Heqs.
  destruct (collect_Equations_lookup order_of _ _ name Hd) as [Hin _].
  destruct (Hin Hname) as (entry & Hentry & Hlook).
  exists entry. split; [done|].
  unfold entry_for, getitem in Hentry. rewrite Heqs in Hentry.
  simpl in Hentry. unfold equation_entry in Hentry.
  assert (∀ (b : bool) (m : gmap string value) v k,
            k ≠ "flags" →
            (if b then <["flags" := v]> m else m) !! k = m !! k) as Hflags.
  { intros [] m v k Hk; [by rewrite lookup_insert_ne|done]. }
  assert (∀ (b : bool) (m : gmap string value) v (X : gset string),
            dom m ⊆ X → "flags" ∈ X →
            dom (if b then <["flags" := v]> m else m) ⊆ X) as Hdomf.
  { intros [] m v X Hm HX; [|done]. rewrite dom_insert_L. set_solver. }
  destruct (decide (SingleEquation.type eqs = PARAMETER)) as [Hkind|Hkind].
  - rewrite bool_decide_eq_true_2 by done.
    rewrite bool_decide_eq_false_2 in Hentry by naive_solver.
    simpl in Hentry. injection Hentry as <-.
    rewrite !Hflags by done.
    split_and!; [by simplify_map_eq..| |].
    + destruct (SingleEquation.flags eqs); simpl; [by simplify_map_eq|].
      by rewrite lookup_insert_eq.
    + apply Hdomf; [|set_solver].
      rewrite !dom_insert_L, dom_singleton_L. set_solver.
  - rewrite bool_decide_eq_false_2 by done.
    rewrite bool_decide_eq_true_2 in Hentry by done.
    destruct (SingleEquation.expr eqs) as [expr|]; [|done].
    simpl in Hentry. injection Hentry as <-.
    rewrite !Hflags by done.
    split_and!; [by simplify_map_eq..| |].
    + destruct (SingleEquation.flags eqs); simpl; [by simplify_map_eq|].
      by rewrite lookup_insert_eq.
    + apply Hdomf; [|set_solver].
      rewrite !dom_insert_L, dom_singleton_L. set_solver.
Qed.

(** ** More on [collect_Events] *)

Section more_events.
Variable get_identifiers : string → gset string.

Lemma collect_Events_body_step (group : NeuronGroup.t)
    (d : gmap string value) (ids : gset string) (ev : option string)
    (event : string) :
  collect_Events_body get_identifiers group (d, ids, ev) event =
  '(sub, new) ← event_step get_identifiers group event;
  Ok (<[event := VDict sub]> d, ids ∪ new, Some event).
Proof.
  unfold collect_Events_body, event_step.
  destruct (getitem (NeuronGroup.events group) event) as [threshold|];
    simpl; [|done].
  destruct (assoc (NeuronGroup.thresholder group) event) as [thresholder|];
    simpl; [|done].
  rewrite setitem_in_insert. simpl.
  destruct (NeuronGroup.event_codes group !! event) as [reset|]; [|done].
  destruct (getitem (NeuronGroup.resetter group) event) as [resetter|];
    simpl; [|done].
  rewrite setitem_in_insert. simpl. by rewrite (assoc_L (∪)).
Qed.



(** The sub-record and the identifiers a step makes, in the words of the
    group. *)
Lemma event_step_Ok (group : NeuronGroup.t) (event : string)
    (sub : gmap string value) (new : gset string) :
  event_step get_identifiers group event = Ok (sub, new) →
  ∃ threshold thresholder,
    NeuronGroup.events group !! event = Some threshold
    ∧ assoc (NeuronGroup.thresholder group) event = Ok thresholder
    ∧ sub !! "threshold" = Some (event_code_record threshold thresholder)
    ∧ sub !! "reset" =
      match NeuronGroup.event_codes group !! event with
      | Some reset =>
          event_code_record reset <$> NeuronGroup.resetter group !! event
      | None => None
      end
    ∧ sub !! "refractory" = None
    ∧ dom sub ⊆ {[ "threshold"; "reset" ]}
    ∧ new = get_identifiers threshold
            ∪ match NeuronGroup.event_codes group !! event with
              | Some reset => get_identifiers reset
              | None => ∅
              end.
Proof.
  unfold event_step.
  intros (threshold & Hthr%getitem_Ok & H)%bind_Ok.
  apply bind_Ok in H as (thresholder & Hobj & H).
  exists threshold, thresholder. split; [done|]. split; [done|].
  destruct (NeuronGroup.event_codes group !! event) as [reset|].
  - apply bind_Ok in H as (resetter & Hres%getitem_Ok & [= <- <-]).
    rewrite Hres. simpl.
    split_and!; [by simplify_map_eq..| |done].
    rewrite !dom_insert_L, dom_empty_L. set_solver.
  - injection H as <- <-.
    split_and!; [by simplify_map_eq..| |by rewrite (right_id_L ∅ (∪))].
    rewrite !dom_insert_L, dom_empty_L. set_solver.
Qed.

Lemma collect_Events_loop_spec (group : NeuronGroup.t) (names : list string)
    (st0 st : Events_state) :
  foldM (collect_Events_body get_identifiers group) st0 names = Ok st →
  (∀ e,
     (e ∈ names →
      ∃ sub new, event_step get_identifiers group e = Ok (sub, new)
                 ∧ st.1.1 !! e = Some (VDict sub))
     ∧ (e ∉ names → st.1.1 !! e = st0.1.1 !! e))
  ∧ (∀ x, x ∈ st.1.2 ↔
          x ∈ st0.1.2
          ∨ ∃ e sub new, e ∈ names
              ∧ event_step get_identifiers group e = Ok (sub, new)
              ∧ x ∈ new).
Proof.
  revert st0. induction names as [|n names IH]; intros [[d0 ids0] ev0].
  - simpl. intros [= <-]. split.
    + intros e. split; [by intros ?%elem_of_nil|done].
    + intros x. split; [by left|].
      by intros [?|(e & ? & ? & ?%elem_of_nil & _)].
  - cbn [foldM]. rewrite collect_Events_body_step.
    intros (st1 & Hstep & Hrest)%bind_Ok.
    apply bind_Ok in Hstep as ([sub new] & Hsub & [= <-]).
    destruct (IH _ Hrest) as [Hdict Hids]. simpl in Hdict, Hids. split.
    + intros e. destruct (Hdict e) as [Hin Hout]. split.
      * intros He. destruct (decide (e ∈ names)) as [?|Hnot]; [by apply Hin|].
        apply elem_of_cons in He as [->|?]; [|done].
        exists sub, new. split; [done|].
        by rewrite (Hout Hnot), lookup_insert_eq.
      * intros [Hne Hnot]%not_elem_of_cons.
        by rewrite (Hout Hnot), lookup_insert_ne.
    + intros x. rewrite Hids, elem_of_union. split.
      * intros [[?|Hx]|(e & sub' & new' & He & Hstep & Hx)].
        -- by left.
        -- right. exists n, sub, new. split; [left|done].
        -- right. exists e, sub', new'. split; [by right|done].
      * intros [?|(e & sub' & new' & [->|He]%elem_of_cons & Hstep & Hx)].
        -- left. by left.
        -- rewrite Hsub in Hstep. injection Hstep as <- <-. left. by right.
        -- right. by exists e, sub', new'.
Qed.


End more_events.






(** X4. The identifiers that [collect_Events] returns are those of the
    threshold conditions of the events that have a thresholder, and those
    of the reset code of these events. *)
Theorem collect_Events_identifiers (get_identifiers : string → gset string)
    (group : NeuronGroup.t) (event_dict : gmap string value)
    (ids : gset string) (x : string) :
  collect_Events get_identifiers group = Ok (event_dict, ids) →
  x ∈ ids ↔
  ∃ event, event ∈ keys (NeuronGroup.thresholder group)
    ∧ ((∃ threshold, NeuronGroup.events group !! event = Some threshold
                     ∧ x ∈ get_identifiers threshold)
       ∨ (∃ reset, NeuronGroup.event_codes group !! event = Some reset
                   ∧ x ∈ get_identifiers reset)).
Proof.
  intros (d0 & last_event & Hloop & _)%collect_Events_Ok.
  destruct (collect_Events_loop_spec _ _ _ _ _ Hloop) as [Hdict Hids].
  simpl in Hdict, Hids. rewrite Hids. split.
  - intros [[]%elem_of_empty|(event & sub & new & Hevent & Hstep & Hx)].
    exists event. split; [done|].
    apply event_step_Ok in Hstep
      as (threshold & thresholder & Hthr & _ & _ & _ & _ & _ & ->).
    apply elem_of_union in Hx as [Hx|Hx]; [left; by exists threshold|].
    right. destruct (NeuronGroup.event_codes group !! event) as [reset|];
      [by exists reset|by apply elem_of_empty in Hx].
  - intros (event & Hevent & Hx). right.
    destruct (Hdict event) as [Hin _].
    destruct (Hin Hevent) as (sub & new & Hstep & _).
    exists event, sub, new. split; [done|]. split; [done|].
    apply event_step_Ok in Hstep
      as (threshold & thresholder & Hthr & _ & _ & _ & _ & _ & ->).
    apply elem_of_union.
    destruct Hx as [(threshold' & Hthr' & Hx)|(reset & Hreset & Hx)].
    + left. congruence.
    + right. by rewrite Hreset.
Qed.

(** X6. In the mapping that [collect_Events] returns, the sub-record of an
    event has a ['refractory'] key exactly when the event is ["spike"], it
    is the last key of the thresholder mapping and the refractory attribute
    of the group is true; the key then holds that attribute.  A group whose
    refractory attribute is false (no refractory period, or one of zero
    duration) gets no ['refractory'] key. *)
Theorem collect_Events_refractory_key (get_identifiers : string → gset string)
    (group : NeuronGroup.t) (event_dict : gmap string value)
    (ids : gset string) (event : string) (sub : gmap string value) :
  collect_Events get_identifiers group = Ok (event_dict, ids) →
  event_dict !! event = Some (VDict sub) →
  sub !! "refractory" =
    if bool_decide (event = "spike"
                    ∧ last (keys (NeuronGroup.thresholder group))
                      = Some "spike")
       && truthy (NeuronGroup._refractory group)
    then Some (NeuronGroup._refractory group)
    else None.
Proof.
  intros Hd Hsub.
  destruct (sub !! "refractory") as [v|] eqn:Hv.
  - destruct (collect_Events_refractory _ _ _ _ _ _ Hd Hsub)
      as (-> & Hlast & Htruthy & _); [left; by eexists|].
    rewrite bool_decide_eq_true_2, Htruthy by done. simpl.
    destruct (collect_Events_refractory_last _ _ _ _ Hd Hlast Htruthy)
      as (s & Hs & Hrefr). congruence.
  - case_bool_decide as Hspike; [|done].
    destruct (truthy (NeuronGroup._refractory group)) eqn:Htruthy; [|done].
    destruct Hspike as [-> Hlast]. simpl.
    destruct (collect_Events_refractory_last _ _ _ _ Hd Hlast Htruthy)
      as (s & Hs & Hrefr). congruence.
Qed.

(** ** More on [collect_NeuronGroup] *)

Lemma NeuronGroup_dict_lookup (group : NeuronGroup.t)
    (equations : gmap string value) (events : option (gmap string value))
    (identifiers : gmap string value) :
  let d := NeuronGroup_dict group equations events identifiers in
  d !! "name" = Some (VStr (NeuronGroup.name group))
  ∧ d !! "N" = Some (VInt (NeuronGroup._N group))
  ∧ d !! "user_method" = Some (user_method group)
  ∧ d !! "equations" = Some (VDict equations)
  ∧ d !! "events" = VDict <$> events
  ∧ d !! "run_regularly" = None
  ∧ d !! "when" = None
  ∧ d !! "order" = None
  ∧ dom d ⊆ {[ "name"; "N"; "user_method"; "equations"; "events";
               "identifiers" ]}.
Proof.
  unfold NeuronGroup_dict. simpl.
  destruct events as [events|], (bool_decide (identifiers = ∅));
    (split_and!; [by simplify_map_eq..|]);
    rewrite !dom_insert_L, dom_empty_L; set_solver.
Qed.

Section more_groups.
Variable get_identifiers : string → gset string.
Variable _prune_identifiers : gmap string value → gmap string value.
Variable order_of : SetOrder.

(** [collect_NeuronGroup], step by step. *)
Lemma collect_NeuronGroup_steps (group : NeuronGroup.t)
    (run_namespace : gmap string value) :
  collect_NeuronGroup get_identifiers _prune_identifiers order_of group
    run_namespace =
  equations ← collect_Equations order_of (NeuronGroup.user_equations group);
  events ←
    (if bool_decide (NeuronGroup.events group = ∅) then Ok None
     else '(events, _) ← collect_Events get_identifiers group;
          Ok (Some events));
  variables ←
    resolved (NeuronGroup.resolve_all group
                (NeuronGroup_identifiers get_identifiers group)
                run_namespace);
  foldM collect_NeuronGroup_body
    (NeuronGroup_dict group equations events (_prune_identifiers variables))
    (NeuronGroup.contained_objects group).
Proof.
  unfold collect_NeuronGroup, NeuronGroup_identifiers, NeuronGroup_dict.
  destruct (collect_Equations _ _) as [equations|]; simpl; [|done].
  rewrite (left_id_L ∅ (∪)).
  assert (∀ d : gmap string value,
            match NeuronGroup.method_choice group with
            | VStr method => <["user_method" := VStr method]> d
            | _ => <["user_method" := VNone]> d
            end = <["user_method" := user_method group]> d) as ->.
  { intros d. unfold user_method.
    by destruct (NeuronGroup.method_choice group). }
  case_bool_decide as Hempty; simpl.
  - rewrite (right_id_L ∅ (∪)).
    destruct (resolved _) as [variables|]; simpl; [|done].
    by destruct (bool_decide (_prune_identifiers variables = ∅)).
  - destruct (collect_Events _ _) as [[events evids]|]; simpl; [|done].
    destruct (resolved _) as [variables|]; simpl; [|done].
    by destruct (bool_decide (_prune_identifiers variables = ∅)).
Qed.

(** A call that returns went through each step, and its record differs
    from the one before the loop at ['run_regularly'], ['when'] and
    ['order'] at most. *)
Lemma collect_NeuronGroup_Ok_steps (group : NeuronGroup.t)
    (run_namespace neuron_dict : gmap string value) :
  collect_NeuronGroup get_identifiers _prune_identifiers order_of group
    run_namespace = Ok neuron_dict →
  ∃ equations events variables,
    collect_Equations order_of (NeuronGroup.user_equations group)
    = Ok equations
    ∧ (if bool_decide (NeuronGroup.events group = ∅) then events = None
       else ∃ ev ids, collect_Events get_identifiers group = Ok (ev, ids)
                      ∧ events = Some ev)
    ∧ NeuronGroup.resolve_all group
        (NeuronGroup_identifiers get_identifiers group) run_namespace
      = Resolved variables
    ∧ ∀ k, k ≠ "run_regularly" → k ≠ "when" → k ≠ "order" →
        neuron_dict !! k =
        NeuronGroup_dict group equations events
          (_prune_identifiers variables) !! k.
Proof.
  rewrite collect_NeuronGroup_steps.
  intros (equations & Heq & H)%bind_Ok.
  apply bind_Ok in H as (events & Hev & H).
  apply bind_Ok in H as (variables & Hres & H).
  exists equations, events, variables. split; [done|]. split_and!.
  - case_bool_decide; [by injection Hev|].
    apply bind_Ok in Hev as ([ev ids] & Hev & [= <-]). by exists ev, ids.
  - destruct (NeuronGroup.resolve_all _ _ _); simpl in Hres; congruence.
  - destruct (NeuronGroup_dict_lookup group equations events
                (_prune_identifiers variables))
      as (_ & _ & _ & _ & _ & Hrr & _).
    destruct (collect_NeuronGroup_loop _
                (NeuronGroup.contained_objects group) Hrr)
      as (d & Hd & _ & _ & _ & Hother).
    rewrite Hd in H. injection H as <-. done.
Qed.


End more_groups.

(** X7. A record that [collect_NeuronGroup] returns holds the name and the
    size of the group; under ['user_method'] the integration method when
    the group was given one as a string, and [None] otherwise; under
    ['equations'] what [collect_Equations] returns for the equations of the
    group; and under ['events'] what [collect_Events] returns, when the
    group has events, the key being absent when it has none. *)
Theorem collect_NeuronGroup_fields
    (get_identifiers : string → gset string)
    (_prune_identifiers : gmap string value → gmap string value)
    (order_of : SetOrder) (group : NeuronGroup.t)
    (run_namespace neuron_dict : gmap string value) :
  collect_NeuronGroup get_identifiers _prune_identifiers order_of group
    run_namespace = Ok neuron_dict →
  neuron_dict !! "name" = Some (VStr (NeuronGroup.name group))
  ∧ neuron_dict !! "N" = Some (VInt (NeuronGroup._N group))
  ∧ neuron_dict !! "user_method" =
    Some match NeuronGroup.method_choice group with
         | VStr method => VStr method
         | _ => VNone
         end
  ∧ (∃ equations,
       collect_Equations order_of (NeuronGroup.user_equations group)
       = Ok equations
       ∧ neuron_dict !! "equations" = Some (VDict equations))
  ∧ (NeuronGroup.events group = ∅ → neuron_dict !! "events" = None)
  ∧ (NeuronGroup.events group ≠ ∅ →
     ∃ events ids,
       collect_Events get_identifiers group = Ok (events, ids)
       ∧ neuron_dict !! "events" = Some (VDict events)).
Proof.
  intros (equations & events & variables & Heq & Hev & _ & Hother)
    %collect_NeuronGroup_Ok_steps.
  destruct (NeuronGroup_dict_lookup group equations events
              (_prune_identifiers variables))
    as (Hname & HN & Hmethod & Hequations & Hevents & _).
  rewrite !Hother by done.
  split_and!; [done..|by exists equations| |].
  - intros Hempty. rewrite bool_decide_eq_true_2 in Hev by done.
    by rewrite Hevents, Hev.
  - intros Hne. rewrite bool_decide_eq_false_2 in Hev by done.
    destruct Hev as (ev & ids & Hev & ->). exists ev, ids.
    by rewrite Hevents.
Qed.

(** X8. A record that [collect_NeuronGroup] returns always has the keys
    ['name'], ['N'], ['user_method'] and ['equations'], and never a key
    other than these and ['events'], ['identifiers'], ['run_regularly'],
    ['when'] and ['order']. *)
Theorem collect_NeuronGroup_keys
    (get_identifiers : string → gset string)
    (_prune_identifiers : gmap string value → gmap string value)
    (order_of : SetOrder) (group : NeuronGroup.t)
    (run_namespace neuron_dict : gmap string value) :
  collect_NeuronGroup get_identifiers _prune_identifiers order_of group
    run_namespace = Ok neuron_dict →
  {[ "name"; "N"; "user_method"; "equations" ]} ⊆ dom neuron_dict
  ∧ dom neuron_dict ⊆
    {[ "name"; "N"; "user_method"; "equations"; "events"; "identifiers";
       "run_regularly"; "when"; "order" ]}.
Proof.
  intros (equations & events & variables & _ & _ & _ & Hother)
    %collect_NeuronGroup_Ok_steps.
  destruct (NeuronGroup_dict_lookup group equations events
              (_prune_identifiers variables))
    as (Hname & HN & Hmethod & Hequations & _ & _ & _ & _ & Hdom).
  split.
  - intros k Hk. apply elem_of_dom.
    assert (k = "name" ∨ k = "N" ∨ k = "user_method" ∨ k = "equations")
      as Hcases by set_solver.
    destruct Hcases as [->|[->|[-> | ->]]];
      rewrite Hother by done; by eexists.
  - intros k Hk.
    destruct (decide (k = "run_regularly")) as [->|?]; [set_solver|].
    destruct (decide (k = "when")) as [->|?]; [set_solver|].
    destruct (decide (k = "order")) as [->|?]; [set_solver|].
    apply elem_of_dom in Hk. rewrite Hother in Hk by done.
    apply elem_of_dom in Hk. set_solver.
Qed.


(** ** [collect_PoissonGroup] and [collect_SpikeGenerator] *)

(** Lookup of a literal key in a dictionary built by insertions. *)
Ltac lookup_key :=
  repeat first [ rewrite lookup_insert_eq | rewrite lookup_insert_ne by done ];
  rewrite ?lookup_empty; done.

Lemma lookup_dom_subseteq (d d0 : gmap string value) (special X : gset string) :
  (∀ k, k ∉ special → d !! k = d0 !! k) →
  dom d0 ⊆ X → special ⊆ X → dom d ⊆ X.
Proof.
  intros Hother Hd0 Hspecial k Hk.
  destruct (decide (k ∈ special)) as [?|Hnot]; [by apply Hspecial|].
  apply Hd0. apply elem_of_dom. rewrite <- (Hother k Hnot).
  by apply elem_of_dom.
Qed.

(** X10. [collect_PoissonGroup] raises the [KeyError] of an identifier of
    the rates that does not resolve, and returns otherwise.  The record
    holds the name, the size and the rates of the group as they are, the
    entries of the contained objects that are exactly [CodeRunner]s under
    ['run_regularly'] (no key when there is none), and no key besides
    these and ['identifiers']: its schedule is not exported. *)
Theorem collect_PoissonGroup_record
    (get_identifiers : string → gset string)
    (_prune_identifiers : gmap string value → gmap string value)
    (poisson_grp : PoissonGroup.t) (run_namespace : gmap string value) :
  match PoissonGroup.resolve_all poisson_grp
          (PoissonGroup_identifiers get_identifiers poisson_grp)
          run_namespace with
  | Unresolved identifier =>
      collect_PoissonGroup get_identifiers _prune_identifiers poisson_grp
        run_namespace = Raise (KeyError identifier)
  | Resolved _ =>
      ∃ d,
        collect_PoissonGroup get_identifiers _prune_identifiers poisson_grp
          run_namespace = Ok d
        ∧ d !! "name" = Some (VStr (PoissonGroup._name poisson_grp))
        ∧ d !! "N" = Some (VInt (PoissonGroup._N poisson_grp))
        ∧ d !! "rates" = Some (PoissonGroup._rates poisson_grp)
        ∧ d !! "run_regularly" =
          match filter (λ obj, Obj.type obj = CodeRunner)
                  (PoissonGroup.contained_objects poisson_grp) with
          | [] => None
          | code_runners => Some (VList (run_regularly_entry <$> code_runners))
          end
        ∧ dom d ⊆ {[ "name"; "N"; "rates"; "identifiers"; "run_regularly" ]}
  end.
Proof.
  unfold collect_PoissonGroup.
  assert (match PoissonGroup._rates poisson_grp with
          | VStr rates => ∅ ∪ get_identifiers rates
          | _ => ∅
          end = PoissonGroup_identifiers get_identifiers poisson_grp) as ->.
  { unfold PoissonGroup_identifiers.
    destruct (PoissonGroup._rates poisson_grp); try done.
    apply (left_id_L ∅ (∪)). }
  destruct (PoissonGroup.resolve_all _ _ _) as [variables|identifier];
    simpl; [|done].
  match goal with
  | |- ∃ d, foldM _ ?d0 ?objs = _ ∧ _ =>
      destruct (collect_run_regularly_loop d0 objs) as (d & Hd & Hrr & Hother)
  end.
  { destruct (negb _); lookup_key. }
  exists d. split; [done|]. rewrite !Hother by done.
  split_and!.
  - destruct (negb _); lookup_key.
  - destruct (negb _); lookup_key.
  - destruct (negb _); lookup_key.
  - rewrite Hrr. unfold run_regularly_list. by destruct (filter _ _).
  - eapply (lookup_dom_subseteq _ _ {[ "run_regularly" ]}).
    + intros k Hk. apply Hother. set_solver.
    + destruct (negb _); rewrite !dom_insert_L, dom_empty_L; set_solver.
    + set_solver.
Qed.

(** X13. [collect_SpikeGenerator] always returns, whatever the run
    namespace.  The record holds the name and the size of the group, its
    neuron indices, spike times and period, the entries of the contained
    objects that are exactly [CodeRunner]s under ['run_regularly'] (no key
    when there is none), and no other key. *)
Theorem collect_SpikeGenerator_record (spike_gen : SpikeGeneratorGroup.t)
    (run_namespace : option (gmap string value)) :
  ∃ d,
    collect_SpikeGenerator spike_gen run_namespace = Ok d
    ∧ d !! "name" = Some (VStr (SpikeGeneratorGroup.name spike_gen))
    ∧ d !! "N" = Some (VInt (SpikeGeneratorGroup.N spike_gen))
    ∧ d !! "indices" =
      Some (VList (VInt <$> SpikeGeneratorGroup._neuron_index spike_gen))
    ∧ d !! "times" =
      Some (VList (VQuantity <$> SpikeGeneratorGroup.spike_time spike_gen))
    ∧ d !! "period" = Some (VQuantity (SpikeGeneratorGroup.period spike_gen))
    ∧ d !! "run_regularly" =
      match filter (λ obj, Obj.type obj = CodeRunner)
              (SpikeGeneratorGroup.contained_objects spike_gen) with
      | [] => None
      | code_runners => Some (VList (run_regularly_entry <$> code_runners))
      end
    ∧ dom d ⊆ {[ "name"; "N"; "indices"; "times"; "period";
                 "run_regularly" ]}.
Proof.
  unfold collect_SpikeGenerator.
  match goal with
  | |- ∃ d, foldM _ ?d0 ?objs = _ ∧ _ =>
      destruct (collect_run_regularly_loop d0 objs) as (d & Hd & Hrr & Hother)
  end.
  { lookup_key. }
  exists d. split; [done|]. rewrite !Hother by done.
  split_and!; [lookup_key..| |].
  - rewrite Hrr. unfold run_regularly_list. by destruct (filter _ _).
  - eapply (lookup_dom_subseteq _ _ {[ "run_regularly" ]}).
    + intros k Hk. apply Hother. set_solver.
    + rewrite !dom_insert_L, dom_empty_L. set_solver.
    + set_solver.
Qed.

(** ** More on [collect_Synapses] *)

Lemma summed_variables_foldl (objs : list Obj.t) (acc : list value) :
  foldl (λ summed_variables obj,
           if isinstance obj SummedVariableUpdater
           then summed_variables ++ [summed_var obj]
           else summed_variables) acc objs
  = acc ++ summed_variables_of objs.
Proof.
  revert acc. induction objs as [|obj objs IH]; intros acc; simpl.
  - by rewrite app_nil_r.
  - rewrite IH. unfold summed_variables_of, isinstance.
    rewrite filter_cons. case_decide as Hobj.
    + rewrite bool_decide_eq_true_2 by done.
      by rewrite fmap_cons, <- (assoc_L (++)).
    + by rewrite bool_decide_eq_false_2.
Qed.

(** [collect_Synapses], from the equations merged under ['equations']. *)
Lemma collect_Synapses_steps (order_of : SetOrder) (synapses : Synapses.t) :
  collect_Synapses order_of synapses =
  equations ← collect_Equations order_of (Synapses.equations synapses);
  merged ←
    match Synapses.event_driven synapses with
    | Some event_driven =>
        if Equations_bool event_driven then
          event_driven_dict ← collect_Equations order_of event_driven;
          Ok (update equations event_driven_dict)
        else Ok equations
    | None => Ok equations
    end;
  let synapse_dict : gmap string value :=
    <["equations" := VDict merged]>
      (<["target" := VStr (Synapses.target synapses)]>
         (<["source" := VStr (Synapses.source synapses)]>
            (<["name" := VStr (Synapses.name synapses)]> ∅))) in
  Ok match summed_variables_of (Synapses.contained_objects synapses) with
     | [] => synapse_dict
     | summed_variables =>
         <["summed_variables" := VList summed_variables]> synapse_dict
     end.
Proof.
  unfold collect_Synapses.
  destruct (collect_Equations _ _) as [equations|]; simpl; [|done].
  rewrite summed_variables_foldl. simpl.
  destruct (Synapses.event_driven synapses) as [event_driven|]; simpl.
  - destruct (Equations_bool event_driven); simpl.
    + destruct (collect_Equations _ event_driven) as [ed|]; simpl; [|done].
      unfold update_in, getitem. rewrite lookup_insert_eq. simpl.
      rewrite insert_insert_eq. by destruct (summed_variables_of _).
    + by destruct (summed_variables_of _).
  - by destruct (summed_variables_of _).
Qed.

(** X11. A record that [collect_Synapses] returns holds the name of the
    connection and the names of its source and target.  Under
    ['summed_variables'] it lists the entries of the contained objects that
    are instances of [SummedVariableUpdater], objects of a subclass
    included, in their order; the key is absent when there is none.  The
    record has no key besides these and ['equations']. *)
Theorem collect_Synapses_record (order_of : SetOrder) (synapses : Synapses.t)
    (synapse_dict : gmap string value) :
  collect_Synapses order_of synapses = Ok synapse_dict →
  synapse_dict !! "name" = Some (VStr (Synapses.name synapses))
  ∧ synapse_dict !! "source" = Some (VStr (Synapses.source synapses))
  ∧ synapse_dict !! "target" = Some (VStr (Synapses.target synapses))
  ∧ synapse_dict !! "summed_variables" =
    match filter (λ obj, SummedVariableUpdater ∈ mro (Obj.type obj))
            (Synapses.contained_objects synapses) with
    | [] => None
    | updaters => Some (VList (summed_var <$> updaters))
    end
  ∧ dom synapse_dict ⊆
    {[ "name"; "source"; "target"; "equations"; "summed_variables" ]}.
Proof.
  rewrite collect_Synapses_steps.
  intros (equations & _ & H)%bind_Ok.
  apply bind_Ok in H as (merged & _ & H). simpl in H.
  unfold summed_variables_of in H.
  destruct (filter _ _) as [|obj objs]; simpl in H; injection H as <-.
  - split_and!; [lookup_key..|].
    rewrite !dom_insert_L, dom_empty_L. set_solver.
  - split_and!; [lookup_key..|].
    rewrite !dom_insert_L, dom_empty_L. set_solver.
Qed.

(** X12. [collect_Synapses] returns exactly when the static equations can
    be collected and the event-driven equations too, if the connection has
    an event-driven set that holds an equation: an event-driven set that
    holds none is not collected. *)
Theorem collect_Synapses_returns_iff (order_of : SetOrder)
    (synapses : Synapses.t) :
  is_Ok (collect_Synapses order_of synapses) ↔
  Equations_wf (Synapses.equations synapses) = true
  ∧ ∀ event_driven,
      Synapses.event_driven synapses = Some event_driven →
      Equations._equations event_driven ≠ ∅ →
      Equations_wf event_driven = true.
Proof.
  rewrite collect_Synapses_steps.
  rewrite <- (collect_Equations_is_Ok_iff order_of). split.
  - intros [d (equations & Heq & H)%bind_Ok].
    split; [by eexists|]. intros event_driven Hev Hne.
    apply bind_Ok in H as (merged & H & _). rewrite Hev in H.
    unfold Equations_bool in H. rewrite bool_decide_eq_false_2 in H by done.
    simpl in H. apply bind_Ok in H as (ed & Hed & _).
    apply (collect_Equations_is_Ok_iff order_of). by eexists.
  - intros [[equations ->] Hev]. simpl.
    destruct (Synapses.event_driven synapses) as [event_driven|];
      [|by eexists].
    unfold Equations_bool. case_bool_decide as Hempty; simpl; [by eexists|].
    destruct (collect_Equations_is_Ok order_of event_driven) as [ed ->];
      [by apply Hev|].
    by eexists.
Qed.

(** ** The monitors *)

Lemma VStr_fmap_inj (l1 l2 : list string) :
  VStr <$> l1 = VStr <$> l2 → l1 = l2.
Proof.
  revert l2. induction l1 as [|x l1 IH]; intros [|y l2]; simpl; try done.
  intros [= -> H]. f_equal. by apply IH.
Qed.

Lemma VInt_fmap_inj (l1 l2 : list Z) :
  VInt <$> l1 = VInt <$> l2 → l1 = l2.
Proof.
  revert l2. induction l1 as [|x l1 IH]; intros [|y l2]; simpl; try done.
  intros [= -> H]. f_equal. by apply IH.
Qed.



Lemma collect_StateMonitor_lookup (state_mon : StateMonitor.t) :
  let d := collect_StateMonitor state_mon in
  d !! "name" = Some (VStr (StateMonitor.name state_mon))
  ∧ d !! "source" = Some (VStr (StateMonitor.source state_mon))
  ∧ d !! "variables" = Some (strs (StateMonitor.record_variables state_mon))
  ∧ d !! "record" =
    Some (if StateMonitor.record_all state_mon then VBool true
          else ints (StateMonitor.record state_mon))
  ∧ d !! "n_indices" = Some (VInt (StateMonitor.n_indices state_mon))
  ∧ d !! "dt" = Some (VQuantity (dt (StateMonitor.clock state_mon)))
  ∧ d !! "when" = Some (VStr (StateMonitor.when state_mon))
  ∧ d !! "order" = Some (VInt (StateMonitor.order state_mon)).
Proof.
  unfold collect_StateMonitor. simpl.
  destruct (StateMonitor.record_all state_mon); split_and!; lookup_key.
Qed.

(** X15. In the record of [collect_StateMonitor], ['record'] is the boolean
    [True] exactly when the monitor records all indices, and the list of
    the recorded indices otherwise.  Two monitors have the same record
    exactly when they agree on what is recorded (all, or the same indices)
    and on the seven other attributes: the indices of a monitor that
    records all are not exported. *)
Theorem collect_StateMonitor_record (m1 m2 : StateMonitor.t) :
  (collect_StateMonitor m1 !! "record" = Some (VBool true)
   ↔ StateMonitor.record_all m1 = true)
  ∧ (StateMonitor.record_all m1 = false →
     collect_StateMonitor m1 !! "record"
     = Some (VList (VInt <$> StateMonitor.record m1)))
  ∧ (collect_StateMonitor m1 = collect_StateMonitor m2 ↔
     StateMonitor.name m1 = StateMonitor.name m2
     ∧ StateMonitor.source m1 = StateMonitor.source m2
     ∧ StateMonitor.record_variables m1 = StateMonitor.record_variables m2
     ∧ StateMonitor.record_all m1 = StateMonitor.record_all m2
     ∧ (StateMonitor.record_all m1 = false →
        StateMonitor.record m1 = StateMonitor.record m2)
     ∧ StateMonitor.n_indices m1 = StateMonitor.n_indices m2
     ∧ StateMonitor.clock m1 = StateMonitor.clock m2
     ∧ StateMonitor.when m1 = StateMonitor.when m2
     ∧ StateMonitor.order m1 = StateMonitor.order m2).
Proof.
  destruct (collect_StateMonitor_lookup m1) as (H1 & H2 & H3 & H4 & H5 & H6 & H7 & H8).
  destruct (collect_StateMonitor_lookup m2) as (G1 & G2 & G3 & G4 & G5 & G6 & G7 & G8).
  split_and!.
  - rewrite H4. by destruct (StateMonitor.record_all m1).
  - intros Hall. by rewrite H4, Hall.
  - split.
    + intros H. rewrite H in H1, H2, H3, H4, H5, H6, H7, H8. clear H.
      rewrite G1 in H1. rewrite G2 in H2. rewrite G3 in H3. rewrite G4 in H4.
      rewrite G5 in H5. rewrite G6 in H6. rewrite G7 in H7. rewrite G8 in H8.
      clear G1 G2 G3 G4 G5 G6 G7 G8.
      injection H1 as E1. injection H2 as E2. injection H3 as E3%VStr_fmap_inj.
      injection H4 as E4. injection H5 as E5. injection H6 as E6.
      injection H7 as E7. injection H8 as E8.
      assert (StateMonitor.record_all m1 = StateMonitor.record_all m2
              ∧ (StateMonitor.record_all m1 = false →
                 StateMonitor.record m1 = StateMonitor.record m2)) as [? ?].
      { destruct (StateMonitor.record_all m1), (StateMonitor.record_all m2);
          try done.
        split; [done|]. intros _. injection E4 as E4%VInt_fmap_inj. done. }
      split_and!; try done.
      destruct (StateMonitor.clock m1), (StateMonitor.clock m2).
      simpl in E6. by subst.
    + intros (? & ? & ? & Hall & Hrec & ? & ? & ? & ?).
      unfold collect_StateMonitor.
      destruct m1 as [? ? ? all1 ? ? ? ? ?], m2 as [? ? ? all2 ? ? ? ? ?].
      simpl in *. subst.
      destruct all2; [done|]. by rewrite Hrec.
Qed.

Lemma collect_PopulationRateMonitor_lookup
    (poprate_mon : PopulationRateMonitor.t) :
  let d := collect_PopulationRateMonitor poprate_mon in
  d !! "name" = Some (VStr (PopulationRateMonitor.name poprate_mon))
  ∧ d !! "source" = Some (VStr (PopulationRateMonitor.source poprate_mon))
  ∧ d !! "dt" = Some (VQuantity (dt (PopulationRateMonitor.clock poprate_mon)))
  ∧ d !! "when" = Some (VStr (PopulationRateMonitor.when poprate_mon))
  ∧ d !! "order" = Some (VInt (PopulationRateMonitor.order poprate_mon)).
Proof. unfold collect_PopulationRateMonitor. simpl. split_and!; lookup_key. Qed.

(** X16. The record of [collect_PopulationRateMonitor] has the five keys
    ['name'], ['source'], ['dt'], ['when'] and ['order'] and no other (no
    selector of indices, no list of variables), and it determines the
    monitor: two monitors with the same record have the same name, source,
    timestep, slot and order. *)
Theorem collect_PopulationRateMonitor_record
    (m1 m2 : PopulationRateMonitor.t) :
  dom (collect_PopulationRateMonitor m1)
  = {[ "name"; "source"; "dt"; "when"; "order" ]}
  ∧ (collect_PopulationRateMonitor m1 = collect_PopulationRateMonitor m2
     ↔ m1 = m2).
Proof.
  split.
  - unfold collect_PopulationRateMonitor. simpl.
    rewrite !dom_insert_L, dom_empty_L. set_solver.
  - split; [|by intros ->]. intros H.
    destruct (collect_PopulationRateMonitor_lookup m1) as (H1 & H2 & H3 & H4 & H5).
    destruct (collect_PopulationRateMonitor_lookup m2) as (G1 & G2 & G3 & G4 & G5).
    rewrite H in H1, H2, H3, H4, H5. clear H.
    rewrite G1 in H1. rewrite G2 in H2. rewrite G3 in H3. rewrite G4 in H4.
    rewrite G5 in H5. clear G1 G2 G3 G4 G5.
    injection H1 as E1. injection H2 as E2. injection H3 as E3.
    injection H4 as E4. injection H5 as E5.
    destruct m1 as [? ? [?] ? ?], m2 as [? ? [?] ? ?]. simpl in *.
    by subst.
Qed.

(** ** Propagation of errors in [collect_NeuronGroup] *)

(** X17. [collect_NeuronGroup] does not catch what its steps raise: when
    [collect_Equations] raises for the equations of the group, the call
    raises the same exception; and when the equations are collected and the
    group has events for which [collect_Events] raises, the call raises
    that exception.  So for a group with events and no thresholder it
    raises [UnboundLocalError]. *)
Theorem collect_NeuronGroup_raises
    (get_identifiers : string → gset string)
    (_prune_identifiers : gmap string value → gmap string value)
    (order_of : SetOrder) (group : NeuronGroup.t)
    (run_namespace : gmap string value) :
  (∀ e,
     collect_Equations order_of (NeuronGroup.user_equations group) = Raise e →
     collect_NeuronGroup get_identifiers _prune_identifiers order_of group
       run_namespace = Raise e)
  ∧ (∀ e,
       Equations_wf (NeuronGroup.user_equations group) = true →
       NeuronGroup.events group ≠ ∅ →
       collect_Events get_identifiers group = Raise e →
       collect_NeuronGroup get_identifiers _prune_identifiers order_of group
         run_namespace = Raise e)
  ∧ (Equations_wf (NeuronGroup.user_equations group) = true →
     NeuronGroup.events group ≠ ∅ →
     NeuronGroup.thresholder group = [] →
     collect_NeuronGroup get_identifiers _prune_identifiers order_of group
       run_namespace = Raise (UnboundLocalError "event")).
Proof.
  assert (∀ e,
            Equations_wf (NeuronGroup.user_equations group) = true →
            NeuronGroup.events group ≠ ∅ →
            collect_Events get_identifiers group = Raise e →
            collect_NeuronGroup get_identifiers _prune_identifiers order_of
              group run_namespace = Raise e) as Hevents.
  { intros e [equations Heq]%(collect_Equations_is_Ok_iff order_of) Hne Hev.
    rewrite collect_NeuronGroup_steps, Heq. simpl.
    rewrite bool_decide_eq_false_2 by done. by rewrite Hev. }
  split_and!; [|done|].
  - intros e Heq. by rewrite collect_NeuronGroup_steps, Heq.
  - intros Hwf Hne Hnil. apply Hevents; [done..|].
    unfold collect_Events. by rewrite Hnil.
Qed.

(** ** The further theorems at the example objects *)

Lemma collect_Equations_entry_v :
  ∃ entry,
    Examples.eqn_dict_v !! "v" = Some (VDict entry)
    ∧ entry !! "unit" = Some (VUnit "V")
    ∧ entry !! "type" = Some (VStr DIFFERENTIAL_EQUATION)
    ∧ entry !! "var_type" = Some (VStr "float")
    ∧ entry !! "expr" =
      (if bool_decide (DIFFERENTIAL_EQUATION = PARAMETER) then None
       else Some (VStr "-v/tau"))
    ∧ entry !! "flags" = None
    ∧ dom entry ⊆ {[ "unit"; "type"; "var_type"; "expr"; "flags" ]}.
Proof.
  apply (collect_Equations_entry elements_order Examples.eqs_v
           Examples.eqn_dict_v "v"
           (SingleEquation.mk "V" DIFFERENTIAL_EQUATION "float"
              (Some (mkExpression "-v/tau")) [])).
  - vm_compute. exact eq_refl.
  - vm_compute. exact eq_refl.
  - vm_compute. exact eq_refl.
Defined.


Lemma collect_Events_identifiers_B :
  "v" ∈ ({[ "v" ]} : gset string) ↔
  ∃ event, event ∈ keys (NeuronGroup.thresholder Examples.group_B)
    ∧ ((∃ threshold,
          NeuronGroup.events Examples.group_B !! event = Some threshold
          ∧ "v" ∈ Examples.get_identifiers threshold)
       ∨ (∃ reset,
            NeuronGroup.event_codes Examples.group_B !! event = Some reset
            ∧ "v" ∈ Examples.get_identifiers reset)).
Proof.
  apply (collect_Events_identifiers Examples.get_identifiers Examples.group_B
           Examples.events_B {[ "v" ]} "v").
  vm_compute. exact eq_refl.
Defined.

Lemma collect_Events_refractory_key_B :
  ({[ "threshold" := event_code_record "v > 1" Examples.spike_thresholder;
      "refractory" := VQuantity (Examples.ms 2) ]} : gmap string value)
  !! "refractory" =
  if bool_decide ("spike" = "spike"
                  ∧ last (keys (NeuronGroup.thresholder Examples.group_B))
                    = Some "spike")
     && truthy (NeuronGroup._refractory Examples.group_B)
  then Some (NeuronGroup._refractory Examples.group_B)
  else None.
Proof.
  apply (collect_Events_refractory_key Examples.get_identifiers
           Examples.group_B Examples.events_B {[ "v" ]} "spike").
  - vm_compute. exact eq_refl.
  - vm_compute. exact eq_refl.
Defined.

Lemma collect_NeuronGroup_fields_B :
  Examples.neuron_dict_B !! "name" = Some (VStr "neurongroup")
  ∧ Examples.neuron_dict_B !! "N" = Some (VInt 10)
  ∧ Examples.neuron_dict_B !! "user_method" = Some (VStr "euler")
  ∧ (∃ equations,
       collect_Equations elements_order Examples.eqs_v = Ok equations
       ∧ Examples.neuron_dict_B !! "equations" = Some (VDict equations))
  ∧ (NeuronGroup.events Examples.group_B = ∅ →
     Examples.neuron_dict_B !! "events" = None)
  ∧ (NeuronGroup.events Examples.group_B ≠ ∅ →
     ∃ events ids,
       collect_Events Examples.get_identifiers Examples.group_B
       = Ok (events, ids)
       ∧ Examples.neuron_dict_B !! "events" = Some (VDict events)).
Proof.
  apply (collect_NeuronGroup_fields Examples.get_identifiers
           Examples._prune_identifiers elements_order Examples.group_B
           Examples.run_namespace Examples.neuron_dict_B).
  vm_compute. exact eq_refl.
Defined.

Lemma collect_NeuronGroup_keys_B :
  {[ "name"; "N"; "user_method"; "equations" ]}
  ⊆ dom Examples.neuron_dict_B
  ∧ dom Examples.neuron_dict_B ⊆
    {[ "name"; "N"; "user_method"; "equations"; "events"; "identifiers";
       "run_regularly"; "when"; "order" ]}.
Proof.
  apply (collect_NeuronGroup_keys Examples.get_identifiers
           Examples._prune_identifiers elements_order Examples.group_B
           Examples.run_namespace Examples.neuron_dict_B).
  vm_compute. exact eq_refl.
Defined.

Lemma collect_Synapses_record_summed :
  Examples.synapse_dict_summed !! "name" = Some (VStr "synapses")
  ∧ Examples.synapse_dict_summed !! "source" = Some (VStr "neurongroup")
  ∧ Examples.synapse_dict_summed !! "target" = Some (VStr "neurongroup_1")
  ∧ Examples.synapse_dict_summed !! "summed_variables"
    = Some (VList [summed_var Examples.summed_updater])
  ∧ dom Examples.synapse_dict_summed ⊆
    {[ "name"; "source"; "target"; "equations"; "summed_variables" ]}.
Proof.
  apply (collect_Synapses_record elements_order Examples.synapses_summed
           Examples.synapse_dict_summed).
  vm_compute. exact eq_refl.
Defined.

(** The group that names [w] without an equation for it. *)
Lemma collect_NeuronGroup_missing_equation :
  collect_NeuronGroup Examples.get_identifiers Examples._prune_identifiers
    elements_order Examples.group_missing_equation Examples.run_namespace
  = Raise (KeyError "w").
Proof. vm_compute. exact eq_refl. Qed.

(** Scenario C of the specification: the thresholder of the generator is
    no [CodeRunner], and the record has no ['run_regularly']. *)
Lemma collect_SpikeGenerator_C :
  collect_SpikeGenerator Examples.spike_gen None = Ok Examples.spikegen_dict
  ∧ Examples.spikegen_dict !! "period" = Some (VQuantity (Examples.ms 0))
  ∧ Examples.spikegen_dict !! "run_regularly" = None.
Proof. split_and!; vm_compute; exact eq_refl. Qed.

(** Scenario D of the specification. *)
Lemma collect_StateMonitor_D :
  collect_StateMonitor Examples.state_mon_all !! "record" = Some (VBool true)
  ∧ collect_StateMonitor Examples.state_mon_some !! "record"
    = Some (VList [VInt 3; VInt 5]).
Proof. split; vm_compute; exact eq_refl. Qed.
